(** * neptune-gremlin: a shallow embedding of [src/neptune-gremlin.js]

    The development follows the source file top to bottom:

    - [Js]       the fragment of JavaScript the file relies on: values,
                 truthiness, strict equality, plain objects and the [in]
                 operator, [Error] objects and completions;
    - [Gremlin]  the property graph held by the remote engine and the
                 traversals the file sends to it;
    - the exported functions themselves: [connect], [query], [saveNode],
      [deleteNode], [saveEdge], [deleteEdge], [search], [updateProperties],
      [nodeExists], [getHeaders].

    Calls to [console.*] and [util.inspect] only print and are left out.

    Three collaborators are not part of the file and are modelled by what
    they are documented to do: the Gremlin steps the file uses (module
    [Gremlin]), [async.retry] (section [Retry]) and the dispatch of the
    socket's ["close"] event ([emitClose]).  The signing routine of [aws4]
    and the focus traversal of [search] stay abstract. *)

From Stdlib Require Import ZArith String List.
From stdpp Require Import base option list strings pretty gmap fin_maps.

Local Open Scope string_scope.
Local Open Scope Z_scope.
Local Open Scope list_scope.

#[local] Set Warnings "-register-all".

(* ================================================================== *)
(** * The JavaScript fragment                                          *)
(* ================================================================== *)

Module Js.

(** JavaScript values.  Numbers are the integral ones; a plain object is
    the finite map of its own enumerable string-keyed properties, its
    prototype being [Object.prototype].  The accessor name ["__proto__"]
    is not an own key of the objects met here: the driver builds its rows
    by assignment and an object literal reads it as the prototype. *)
Inductive value : Type :=
| VUndefined
| VNull
| VBool (b : bool)
| VNum (n : Z)
| VStr (s : string)
| VArr (xs : list value)
| VObj (o : gmap string value).

(** [!v] is [negb (truthy v)]. *)
Definition truthy (v : value) : bool :=
  match v with
  | VUndefined | VNull => false
  | VBool b => b
  | VNum n => negb (n =? 0)
  | VStr s => negb (String.eqb s "")
  | VArr _ | VObj _ => true
  end.

(** [a || b] on values. *)
Definition or_else (a b : value) : value := if truthy a then a else b.

(** [a === b].  Arrays and objects are compared by reference; every use in
    this file compares values that were deserialised separately, so two of
    them are never the same reference. *)
Definition strict_eq (a b : value) : bool :=
  match a, b with
  | VUndefined, VUndefined => true
  | VNull, VNull => true
  | VBool x, VBool y => Bool.eqb x y
  | VNum x, VNum y => x =? y
  | VStr x, VStr y => String.eqb x y
  | _, _ => false
  end.

(** [Array.isArray(v)]. *)
Definition isArray (v : value) : bool :=
  match v with VArr _ => true | _ => false end.

(** [o[k]] / [o.k] on a plain object: the own property, else [undefined]
    (none of the keys read this way is a member of [Object.prototype]). *)
Definition get (o : gmap string value) (k : string) : value :=
  default VUndefined (o !! k).

(** [xs[i]] on an array. *)
Definition index (xs : list value) (i : nat) : value :=
  default VUndefined (xs !! i).

(** The property names every plain object inherits from
    [Object.prototype]. *)
Definition Object_prototype : list string :=
  [ "constructor"; "hasOwnProperty"; "isPrototypeOf"; "propertyIsEnumerable";
    "toLocaleString"; "toString"; "valueOf"; "__proto__";
    "__defineGetter__"; "__defineSetter__";
    "__lookupGetter__"; "__lookupSetter__" ].

(** [k in o] for a plain object [o]: own properties and the prototype
    chain. *)
Definition has_in {A} (k : string) (o : gmap string A) : bool :=
  bool_decide (is_Some (o !! k)) || bool_decide (k ∈ Object_prototype).

(** [for (const k in o) body] threading a state: the own enumerable keys
    of a plain object, each one once (the members of [Object.prototype]
    are not enumerable).  The keys come in the order of the finite map,
    not in insertion order; the loops of this file write to a different
    place for each key, so their result does not depend on the order. *)
Definition for_in {A S} (o : gmap string A) (body : string → A → S → S)
    (s : S) : S :=
  foldl (λ acc kv, body kv.1 kv.2 acc) s (map_to_list o).

(** [err.message.startsWith(p)] and [err.message.includes(p)]. *)
Definition startsWith (s p : string) : bool := String.prefix p s.

Fixpoint includes (s p : string) : bool :=
  String.prefix p s ||
  match s with
  | EmptyString => false
  | String _ rest => includes rest p
  end.

(** [Error] objects: [name], [message] and the optional [cause]. *)
Inductive error : Type :=
| MkError (name message : string) (cause : option error).

Definition name (e : error) : string := let 'MkError n _ _ := e in n.
Definition message (e : error) : string := let 'MkError _ m _ := e in m.
Definition cause (e : error) : option error := let 'MkError _ _ c := e in c.

(** [new Error(msg)] and the [TypeError] raised by a property access on
    [undefined] or [null] (its message is worded as Node.js words it). *)
Definition Error (msg : string) : error := MkError "Error" msg None.
Definition TypeError (msg : string) : error := MkError "TypeError" msg None.

(** How a call completes: it returns or it throws. *)
Inductive completion (A : Type) : Type :=
| Returns (a : A)
| Throws (e : error).
Global Arguments Returns {A} a.
Global Arguments Throws {A} e.

Global Instance completion_ret : MRet completion := λ A a, Returns a.
Global Instance completion_bind : MBind completion := λ A B k c,
  match c with
  | Returns a => k a
  | Throws e => Throws e
  end.

(** [for (const k in o)] with a body that may throw.  When the body
    throws for more than one key, the order of the keys decides which of
    the errors is the one raised. *)
Definition for_in_try {A S} (o : gmap string A)
    (body : string → A → S → completion S) (s : S) : completion S :=
  foldl (λ acc kv, acc ≫= body kv.1 kv.2) (Returns s) (map_to_list o).

(** [v.id] where [v] is any value: a [TypeError] on [undefined] and
    [null], the own property on an object, [undefined] elsewhere. *)
Definition member_id (v : value) : completion value :=
  match v with
  | VUndefined =>
      Throws (TypeError "Cannot read properties of undefined (reading 'id')")
  | VNull =>
      Throws (TypeError "Cannot read properties of null (reading 'id')")
  | VObj o => Returns (get o "id")
  | _ => Returns VUndefined
  end.

(** [v.k] where [v] is any value and [k] is a name no prototype defines:
    a [TypeError] on [undefined] and [null], the own property on an
    object, [undefined] on a boolean, a number, a string or an array. *)
Definition member (v : value) (k : string) : completion value :=
  match v with
  | VUndefined =>
      Throws (TypeError ("Cannot read properties of undefined (reading '"
                         +:+ k +:+ "')"))
  | VNull =>
      Throws (TypeError ("Cannot read properties of null (reading '"
                         +:+ k +:+ "')"))
  | VObj o => Returns (get o k)
  | _ => Returns VUndefined
  end.

(** [a || b] where evaluating an operand may throw: [b] is evaluated only
    when [a] has returned a falsy value. *)
Definition or_else_try (a b : completion value) : completion value :=
  a ≫= λ x, if truthy x then Returns x else b.

End Js.
Import Js.

(* ================================================================== *)
(** * The remote graph engine                                          *)
(* ================================================================== *)

(** Element identifiers and labels are strings.  A vertex property holds a
    list of values (Neptune's default cardinality is [set]); an edge
    property holds one value. *)
Module Gremlin.

Record Vertex : Type := {
  v_label : string;
  v_props : gmap string (list value);
}.

Record Edge : Type := {
  e_label : string;
  e_outV : string;   (* the vertex the edge leaves *)
  e_inV : string;    (* the vertex the edge enters *)
  e_props : gmap string value;
}.

Record Graph : Type := {
  vertices : gmap string Vertex;
  edges : gmap string Edge;
}.

Definition empty : Graph := {| vertices := ∅; edges := ∅ |}.

Definition with_vertices (f : gmap string Vertex → gmap string Vertex)
    (G : Graph) : Graph :=
  {| vertices := f (vertices G); edges := edges G |}.

Definition with_edges (f : gmap string Edge → gmap string Edge)
    (G : Graph) : Graph :=
  {| vertices := vertices G; edges := f (edges G) |}.

Definition with_v_props (f : gmap string (list value) → gmap string (list value))
    (v : Vertex) : Vertex :=
  {| v_label := v_label v; v_props := f (v_props v) |}.

Definition with_e_props (f : gmap string value → gmap string value)
    (e : Edge) : Edge :=
  {| e_label := e_label e; e_outV := e_outV e; e_inV := e_inV e;
     e_props := f (e_props e) |}.

(** [g.V(id).next()] and [g.E(id).next()]: is [existing.value] truthy? *)
Definition hasV (id : string) (G : Graph) : bool :=
  bool_decide (is_Some (vertices G !! id)).

Definition hasE (id : string) (G : Graph) : bool :=
  bool_decide (is_Some (edges G !! id)).

(** [g.V(id).valueMap().toList()] and [g.E(id).valueMap().toList()]:
    no row when the element is missing; a vertex row maps each key to the
    array of its values, an edge row maps each key to its value. *)
Definition valueMap (isNode : bool) (id : string) (G : Graph)
    : list (gmap string value) :=
  if isNode then
    match vertices G !! id with
    | Some v => [VArr <$> v_props v]
    | None => []
    end
  else
    match edges G !! id with
    | Some e => [e_props e]
    | None => []
    end.

(** [g.V(id).properties(key).drop()] and [g.E(id).properties(key).drop()]. *)
Definition dropProperty (isNode : bool) (id key : string) (G : Graph) : Graph :=
  if isNode then with_vertices (alter (with_v_props (delete key)) id) G
  else with_edges (alter (with_e_props (delete key)) id) G.

(** [g.V(id).property(cardinality.single, key, val)]: the one value
    replaces whatever the key held. *)
Definition propertySingle (id key : string) (val : value) (G : Graph) : Graph :=
  with_vertices (alter (with_v_props (<[key := [val]]>)) id) G.

(** [g.E(id).property(key, val)]. *)
Definition property (id key : string) (val : value) (G : Graph) : Graph :=
  with_edges (alter (with_e_props (<[key := val]>)) id) G.

(** [g.addV(label).property(t.id, id)], sent only when no vertex has
    the id. *)
Definition addV (label id : string) (G : Graph) : Graph :=
  with_vertices (<[id := {| v_label := label; v_props := ∅ |}]>) G.

(** [g.V(a).as("a").V(current).addE(label).property(t.id, id).from_("a")]:
    nothing happens unless both vertices exist; [from_("a")] makes the
    vertex named ["a"] the one the new edge leaves, and the edge enters
    the vertex the traverser stands on. *)
Definition addE_from (a current label id : string) (G : Graph) : Graph :=
  if hasV a G && hasV current G then
    with_edges (<[id := {| e_label := label; e_outV := a; e_inV := current;
                           e_props := ∅ |}]>) G
  else G.

(** [g.V(id).inE().drop()] and [g.V(id).outE().drop()]: without the
    vertex there is no traverser and nothing is dropped. *)
Definition dropInE (id : string) (G : Graph) : Graph :=
  if hasV id G then with_edges (filter (λ kv, e_inV kv.2 ≠ id)) G else G.

Definition dropOutE (id : string) (G : Graph) : Graph :=
  if hasV id G then with_edges (filter (λ kv, e_outV kv.2 ≠ id)) G else G.

(** [g.E(id).drop()]. *)
Definition dropE (id : string) (G : Graph) : Graph :=
  with_edges (delete id) G.

(** [g.V(id).drop()]: the vertex goes, and with it the edges touching it. *)
Definition dropV (id : string) (G : Graph) : Graph :=
  if hasV id G then
    with_vertices (delete id)
      (with_edges (filter (λ kv, e_inV kv.2 ≠ id ∧ e_outV kv.2 ≠ id)) G)
  else G.

(** One row of [g.V().valueMap(true)]: the property arrays, with the id
    and the label under the keys ["id"] and ["label"]. *)
Definition valueMapTrue (id : string) (v : Vertex) : gmap string value :=
  <["id" := VStr id]> (<["label" := VStr (v_label v)]> (VArr <$> v_props v)).

(** [g.V().valueMap(true).toList()]. *)
Definition V_valueMapTrue (G : Graph) : list (gmap string value) :=
  (λ kv, valueMapTrue kv.1 kv.2) <$> map_to_list (vertices G).

(** One row of [g.E().elementMap()]: id, label, the properties, and under
    ["IN"] and ["OUT"] the id and label of the vertex the edge enters and
    of the vertex it leaves. *)
Definition elementMap (G : Graph) (id : string) (e : Edge)
    : gmap string value :=
  let endpoint (vid : string) : value :=
    VObj {[ "id" := VStr vid;
            "label" := VStr (default "" (v_label <$> vertices G !! vid)) ]} in
  <["id" := VStr id]>
    (<["label" := VStr (e_label e)]>
       (<["IN" := endpoint (e_inV e)]>
          (<["OUT" := endpoint (e_outV e)]> (e_props e)))).

(** [g.E().elementMap().toList()]. *)
Definition E_elementMap (G : Graph) : list (gmap string value) :=
  (λ kv, elementMap G kv.1 kv.2) <$> map_to_list (edges G).

End Gremlin.
Import Gremlin.

(* ================================================================== *)
(** * updateProperties                                                 *)
(* ================================================================== *)

(** [updateProperties(id, g, props, isNode = true)], with the graph behind
    the traversal source [g] passed explicitly. *)
Definition updateProperties (id : string) (props : gmap string value)
    (isNode : bool) (G : Graph) : Graph :=
  let existingProps := valueMap isNode id G in
  let G :=
    for_in (default ∅ (head existingProps))
      (λ ep _ G, if negb (has_in ep props)
                 then dropProperty isNode id ep G else G) G in
  for_in props
    (λ prop val G, if isNode then propertySingle id prop val G
                   else property id prop val G) G.

(* ================================================================== *)
(** * nodeExists and the two loops of search                           *)
(* ================================================================== *)

(** The objects [search] builds: [{ id, labels, properties }] and
    [{ id, label, from, to, properties }].  Their fields hold whatever
    the raw rows hold. *)
Module Node.
Record t : Type := {
  id : value;
  labels : value;
  properties : gmap string value;
}.
End Node.

Module Edge.
Record t : Type := {
  id : value;
  label : value;
  from : value;
  to : value;
  properties : gmap string value;
}.
Definition set_id (v : value) (e : t) : t :=
  {| id := v; label := label e; from := from e; to := to e;
     properties := properties e |}.
Definition set_label (v : value) (e : t) : t :=
  {| id := id e; label := v; from := from e; to := to e;
     properties := properties e |}.
Definition set_from (v : value) (e : t) : t :=
  {| id := id e; label := label e; from := v; to := to e;
     properties := properties e |}.
Definition set_to (v : value) (e : t) : t :=
  {| id := id e; label := label e; from := from e; to := v;
     properties := properties e |}.
Definition set_property (k : string) (v : value) (e : t) : t :=
  {| id := id e; label := label e; from := from e; to := to e;
     properties := <[k := v]> (properties e) |}.
End Edge.

(** [nodeExists(nodes, id)]. *)
Fixpoint nodeExists (nodes : list Node.t) (id : value) : bool :=
  match nodes with
  | [] => false
  | node :: nodes =>
      if strict_eq (Node.id node) id then true else nodeExists nodes id
  end.

(** The body of [for (const n of rawNodes)]: the node built from one raw
    row. *)
Definition toNode (n : gmap string value) : Node.t :=
  let id := get n "id" in
  let labels := get n "label" in
  let labels := if negb (isArray labels) then VArr [labels] else labels in
  let properties :=
    for_in n
      (λ p val properties,
         if negb (String.eqb p "id") && negb (String.eqb p "label") then
           match val with
           | VArr xs =>
               if (length xs =? 1)%nat then <[p := index xs 0]> properties
               else <[p := val]> properties
           | _ => <[p := val]> properties
           end
         else properties)
      ∅ in
  {| Node.id := id; Node.labels := labels; Node.properties := properties |}.

(** The [switch] inside [for (const key in e)]. *)
Definition edgeField (key : string) (val : value) (edge : Edge.t)
    : completion Edge.t :=
  if String.eqb key "id" then Returns (Edge.set_id val edge)
  else if String.eqb key "label" then Returns (Edge.set_label val edge)
  else if String.eqb key "IN" then
    v ← member_id val; Returns (Edge.set_from v edge)
  else if String.eqb key "OUT" then
    v ← member_id val; Returns (Edge.set_to v edge)
  else Returns (Edge.set_property key val edge).

(** The edge built from one raw row. *)
Definition toEdge (e : gmap string value) : completion Edge.t :=
  for_in_try e edgeField
    {| Edge.id := VStr ""; Edge.label := VStr ""; Edge.from := VStr "";
       Edge.to := VStr ""; Edge.properties := ∅ |}.

(** The body of [for (const e of rawEdges)]: build the edge, then push it
    when both of its ends are among [nodes]. *)
Definition pushEdge (nodes : list Node.t) (edges : list Edge.t)
    (e : gmap string value) : completion (list Edge.t) :=
  edge ← toEdge e;
  if nodeExists nodes (Edge.from edge) && nodeExists nodes (Edge.to edge)
  then Returns (edges ++ [edge])
  else Returns edges.

(** What [search] returns: [{ nodes, edges }]. *)
Module Result.
Record t : Type := {
  nodes : list Node.t;
  edges : list Edge.t;
}.
End Result.

(** Everything [search] does after the two traversals. *)
Definition extract (rawNodes rawEdges : list (gmap string value))
    : completion Result.t :=
  let nodes := foldl (λ nodes n, nodes ++ [toNode n]) [] rawNodes in
  edges ← foldl (λ acc e, edges ← acc; pushEdge nodes edges e)
                (Returns []) rawEdges;
  Returns {| Result.nodes := nodes; Result.edges := edges |}.

(* ================================================================== *)
(** * getHeaders                                                       *)
(* ================================================================== *)

(** [String(v)], as a template literal applies it.  A number is printed
    with all its digits, as JavaScript prints the integers below 10^21. *)
Fixpoint to_string (v : value) : string :=
  match v with
  | VUndefined => "undefined"
  | VNull => "null"
  | VBool b => if b then "true" else "false"
  | VNum n => pretty n
  | VStr s => s
  | VArr xs =>
      let item x :=
        match x with VUndefined | VNull => "" | _ => to_string x end in
      (fix join (xs : list value) : string :=
         match xs with
         | [] => ""
         | [x] => item x
         | x :: rest => item x +:+ "," +:+ join rest
         end) xs
  | VObj _ => "[object Object]"
  end.

(** The two arguments of [aws4.sign]. *)
Record SignOptions : Type := {
  so_host : string;
  so_region : value;
  so_path : value;
  so_service : string;
}.

Record SignCredentials : Type := {
  accessKeyId : value;
  secretAccessKey : value;
  sessionToken : value;
}.

(** [process.env.NAME]: a string when set, [undefined] otherwise. *)
Definition env_get (env : gmap string string) (name : string) : value :=
  match env !! name with
  | Some s => VStr s
  | None => VUndefined
  end.

Section Program.

(** [aws4.sign(options, credentials).headers]: the signing routine of the
    [aws4] package. *)
Variable aws4_sign_headers : SignOptions → SignCredentials → gmap string value.

(** [getHeaders(host, port, credentials, canonicalUri)], reading
    [process.env] as [env].  [credentials] is whatever the caller passed,
    [undefined] when the argument is left out: the function reads its
    members without a test. *)
Definition getHeaders (env : gmap string string)
    (host port credentials canonicalUri : value)
    : completion (gmap string value) :=
  if negb (truthy host) || negb (truthy port) then
    Throws (Error "Host and port are required")
  else
    accessKeyId ←
      or_else_try (or_else_try (member credentials "accessKey")
                               (member credentials "accessKeyId"))
                  (Returns (env_get env "AWS_ACCESS_KEY_ID"));
    secretAccessKey ←
      or_else_try (or_else_try (member credentials "secretKey")
                               (member credentials "secretAccessKey"))
                  (Returns (env_get env "AWS_SECRET_ACCESS_KEY"));
    sessionToken ←
      or_else_try (member credentials "sessionToken")
                  (Returns (env_get env "AWS_SESSION_TOKEN"));
    region ←
      or_else_try (member credentials "region")
                  (Returns (env_get env "AWS_DEFAULT_REGION"));
    if negb (truthy accessKeyId) || negb (truthy secretAccessKey) then
      Throws (Error "Access key and secret key are required")
    else
      let signOptions :=
        {| so_host := to_string host +:+ ":" +:+ to_string port;
           so_region := region;
           so_path := canonicalUri;
           so_service := "neptune-db" |} in
      Returns (aws4_sign_headers signOptions
                 {| accessKeyId := accessKeyId;
                    secretAccessKey := secretAccessKey;
                    sessionToken := sessionToken |}).

(* ================================================================== *)
(** * class Connection                                                 *)
(* ================================================================== *)

(** A [DriverRemoteConnection] object: what it was constructed with, and
    [serial], which tells the objects apart (the n-th one built). *)
Record DriverRemoteConnection : Type := {
  url : string;
  mimeType : string;
  headers : gmap string value;
  serial : nat;
}.

(** The fields of a [Connection] instance; [connection] is [null] until
    [connect] has run. *)
Record Connection : Type := {
  host : value;
  port : value;
  useIam : bool;
  connection : option DriverRemoteConnection;
}.


(** [traversal().withRemote(connection)]: the traversal source [g], bound
    to the connection object it was made from. *)
Record Handle : Type := { remote : option DriverRemoteConnection }.

Definition withRemote (c : option DriverRemoteConnection) : Handle :=
  {| remote := c |}.

(** What the executor does that can be observed from outside. *)
Inductive event : Type :=
| Invoke (g : Handle)                    (* the query function is called with [g] *)
| Wait (ms : Z)                          (* [setTimeout] of the next attempt *)
| Close (c : DriverRemoteConnection)     (* [connection.close()] *)
| Open (c : DriverRemoteConnection).     (* [new DriverRemoteConnection(...)] *)

(** The state a call of a [Connection] method runs in: the instance, what
    the query functions act on ([world], the remote graph), [process.env],
    the number of connection objects built so far and the events so far. *)
Record State (W : Type) : Type := {
  this : Connection;
  world : W;
  process_env : gmap string string;
  built : nat;
  trace : list event;
}.
Global Arguments this {W} _.
Global Arguments world {W} _.
Global Arguments process_env {W} _.
Global Arguments built {W} _.
Global Arguments trace {W} _.

Definition set_world {W} (w : W) (st : State W) : State W :=
  {| this := this st; world := w; process_env := process_env st;
     built := built st; trace := trace st |}.

Definition emit {W} (ev : event) (st : State W) : State W :=
  {| this := this st; world := world st; process_env := process_env st;
     built := built st; trace := trace st ++ [ev] |}.





(** [connect()].  An [async] method without [await]: its body runs to the
    end within the call, and an exception becomes the rejection of the
    promise it returns.  [closeListener] is registered on the socket of
    the connection object it builds. *)
Definition connect {W} (st : State W) : State W * completion unit :=
  let self := this st in
  let path := "/gremlin" in
  let url := "wss://" +:+ to_string (host self) +:+ ":"
             +:+ to_string (port self) +:+ path in
  match (if useIam self
         then getHeaders (process_env st) (host self) (port self)
                         (VObj ∅) (VStr path)
         else Returns ∅) with
  | Throws e => (st, Throws e)
  | Returns headers =>
      let c := {| url := url;
                  mimeType := "application/vnd.gremlin-v2.0+json";
                  headers := headers;
                  serial := S (built st) |} in
      (emit (Open c)
         {| this := {| host := host self; port := port self;
                       useIam := useIam self; connection := Some c |};
            world := world st; process_env := process_env st;
            built := S (built st); trace := trace st |},
       Returns tt)
  end.

(* ------------------------------------------------------------------ *)
(** ** async.retry                                                     *)
(* ------------------------------------------------------------------ *)

(** How the promise returned by [async.retry] ends: fulfilled, rejected,
    or never settled because an exception escaped from the callback the
    library runs after a failed attempt. *)
Inductive outcome (A : Type) : Type :=
| Resolved (a : A)
| Rejected (e : error)
| Uncaught (e : error).
Global Arguments Resolved {A} a.
Global Arguments Rejected {A} e.
Global Arguments Uncaught {A} e.

(** What [this] is bound to inside a [function] expression depends on the
    call.  [errorFilter] is stored in the options object handed to
    [async.retry], and the library calls it as [options.errorFilter(err)]. *)
Inductive receiver : Type :=
| OnConnection      (* called as a method of the [Connection] instance *)
| OnRetryOptions.   (* called as a method of the retry options object *)

Section Retry.
Context {St A : Type}.
Variable times : nat.
Variable interval : Z.
Variable errorFilter : receiver → error → St → St * completion bool.
Variable setTimeout : Z → St → St.
Variable task : St → St * completion A.

(** [retryAttempt], with [remaining] standing for [times - attempt]:
    after a failure the library tests [attempt++ < times] first and asks
    [errorFilter] only when attempts remain. *)
Fixpoint retryAttempt (remaining : nat) (s : St) : St * outcome A :=
  let '(s, r) := task s in
  match r with
  | Returns a => (s, Resolved a)
  | Throws err =>
      match remaining with
      | O => (s, Rejected err)
      | S remaining =>
          let '(s, again) := errorFilter OnRetryOptions err s in
          match again with
          | Returns true => retryAttempt remaining (setTimeout interval s)
          | Returns false => (s, Rejected err)
          | Throws e => (s, Uncaught e)
          end
      end
  end.

(** [times] falls back to the library default 5 when it is 0. *)
Definition retry (s : St) : St * outcome A :=
  retryAttempt (Nat.pred (if Nat.eqb times 0 then 5%nat else times)) s.
End Retry.

(* ------------------------------------------------------------------ *)
(** ** query                                                           *)
(* ------------------------------------------------------------------ *)

(** [this.connection.close()] as [errorFilter] evaluates it: a [TypeError]
    when [this.connection] is [undefined] (the retry options object has no
    such property) or [null]. *)
Definition close_connection {W} (r : receiver) (st : State W)
    : completion (State W) :=
  match r with
  | OnRetryOptions =>
      Throws (TypeError "Cannot read properties of undefined (reading 'close')")
  | OnConnection =>
      match connection (this st) with
      | None =>
          Throws (TypeError "Cannot read properties of null (reading 'close')")
      | Some c => Returns (emit (Close c) st)
      end
  end.

(** The [errorFilter] of [query].  Its state is the [Connection] state
    together with the variable [g] of the enclosing [query] call.  The
    promise of [this.connect()] is dropped, so a failing [connect] leaves
    [this.connection] as it was. *)
Definition errorFilter {W} (r : receiver) (err : error)
    (s : State W * Handle) : (State W * Handle) * completion bool :=
  let '(st, g) := s in
  if startsWith (message err) "WebSocket is not open" then
    match close_connection r st with
    | Throws e => (s, Throws e)
    | Returns st =>
        let st := (connect st).1 in
        let g := withRemote (connection (this st)) in
        ((st, g), Returns true)
    end
  else if includes (message err) "ConcurrentModificationException" then
    (s, Returns true)
  else if includes (message err) "ReadOnlyViolationException" then
    (s, Returns true)
  else
    (s, Returns false).

(** [query(f)].  The query function [f] takes the traversal source and
    acts on the world behind it. *)
Definition task {W A} (f : Handle → W → W * completion A)
    (s : State W * Handle) : (State W * Handle) * completion A :=
  let '(st, g) := s in
  let '(w, r) := f g (world st) in
  ((set_world w (emit (Invoke g) st), g), r).

Definition setTimeout {W} (ms : Z) (s : State W * Handle)
    : State W * Handle :=
  let '(st, g) := s in (emit (Wait ms) st, g).

Definition query {W A} (f : Handle → W → W * completion A) (st : State W)
    : State W * outcome A :=
  let g := withRemote (connection (this st)) in
  let '((st, _), r) := retry 5 1000 errorFilter setTimeout (task f) (st, g) in
  (st, r).

(* ------------------------------------------------------------------ *)
(** ** saveNode, deleteNode, saveEdge, deleteEdge                      *)
(* ------------------------------------------------------------------ *)

(** The argument of [saveNode]: [{ id, properties, labels }]. *)
Record NodeModel : Type := {
  node_id : string;
  node_properties : gmap string value;
  node_labels : list string;
}.

(** The argument of [saveEdge]: [{ id, label, to, from, properties }]. *)
Record EdgeModel : Type := {
  edge_id : string;
  edge_label : string;
  edge_to : string;
  edge_from : string;
  edge_properties : gmap string value;
}.

(** [labels.join(sep)]. *)
Fixpoint join (sep : string) (labels : list string) : string :=
  match labels with
  | [] => ""
  | [l] => l
  | l :: rest => l +:+ sep +:+ join sep rest
  end.

Definition saveNode_fn (node : NodeModel) (g : Handle) (G : Graph)
    : Graph * completion value :=
  if hasV (node_id node) G then
    (updateProperties (node_id node) (node_properties node) true G,
     Returns VUndefined)
  else
    let G := addV (join "::" (node_labels node)) (node_id node) G in
    (updateProperties (node_id node) (node_properties node) true G,
     Returns VUndefined).

Definition saveNode (node : NodeModel) (st : State Graph)
    : State Graph * outcome value :=
  query (saveNode_fn node) st.

Definition deleteNode_fn (id : string) (g : Handle) (G : Graph)
    : Graph * completion value :=
  let G := dropInE id G in
  let G := dropOutE id G in
  let G := dropV id G in
  (G, Returns VUndefined).

Definition deleteNode (id : string) (st : State Graph)
    : State Graph * outcome value :=
  query (deleteNode_fn id) st.

Definition saveEdge_fn (edge : EdgeModel) (g : Handle) (G : Graph)
    : Graph * completion value :=
  if hasE (edge_id edge) G then
    (updateProperties (edge_id edge) (edge_properties edge) false G,
     Returns VUndefined)
  else
    (* g.V(edge.to).as("a").V(edge.from).addE(edge.label)
         .property(t.id, edge.id).from_("a") *)
    let G := addE_from (edge_to edge) (edge_from edge)
               (edge_label edge) (edge_id edge) G in
    (updateProperties (edge_id edge) (edge_properties edge) false G,
     Returns VUndefined).

Definition saveEdge (edge : EdgeModel) (st : State Graph)
    : State Graph * outcome value :=
  query (saveEdge_fn edge) st.

Definition deleteEdge_fn (id : string) (g : Handle) (G : Graph)
    : Graph * completion value :=
  (dropE id G, Returns VUndefined).

Definition deleteEdge (id : string) (st : State Graph)
    : State Graph * outcome value :=
  query (deleteEdge_fn id) st.

(* ------------------------------------------------------------------ *)
(** ** search                                                          *)
(* ------------------------------------------------------------------ *)

(** [options]: [{ focus: { label, key, value } }], [focus] optional. *)
Record Focus : Type := {
  focus_label : string;
  focus_key : string;
  focus_value : value;
}.

Record Options : Type := { focus : option Focus }.

(** The rows of
    [g.V().has(label, key, value).bothE().bothV().dedup().valueMap(true)],
    as the engine evaluates the traversal. *)
Variable focusRows : Focus → Graph → list (gmap string value).

Definition search_fn (options : Options) (g : Handle) (G : Graph)
    : Graph * completion Result.t :=
  let rawNodes :=
    match focus options with
    | Some f => focusRows f G
    | None => V_valueMapTrue G
    end in
  let rawEdges := E_elementMap G in
  (G, extract rawNodes rawEdges).

Definition search (options : Options) (st : State Graph)
    : State Graph * outcome Result.t :=
  query (search_fn options) st.

End Program.

(* ================================================================== *)
(** * Notions used in the statements                                   *)
(* ================================================================== *)

(** Values that [===] compares by content. *)
Definition primitive (v : value) : Prop :=
  match v with
  | VArr _ | VObj _ => False
  | _ => True
  end.

(** The two loop shapes of [updateProperties], on the property map of the
    one element they touch. *)
Definition dropMissing {A B} (props : gmap string value)
    (existing : list (string * B)) (m : gmap string A) : gmap string A :=
  foldl (λ m kv, if negb (has_in kv.1 props) then delete kv.1 m else m)
        m existing.

Definition setAll {A B} (f : B → A) (props : list (string * B))
    (m : gmap string A) : gmap string A :=
  foldl (λ m kv, <[kv.1 := f kv.2]> m) m props.

(** What the first loop of [search] stores for a raw value: the sole
    element of a one-element array, the value itself otherwise. *)
Definition stored (val : value) : value :=
  match val with
  | VArr xs => if (length xs =? 1)%nat then index xs 0 else val
  | _ => val
  end.

(** The world after [n] calls of the query function [f] with the
    traversal source [g]. *)
Fixpoint worldAfter {W A} (f : Handle → W → W * completion A) (g : Handle)
    (n : nat) (w : W) : W :=
  match n with
  | O => w
  | S n => worldAfter f g n (f g w).1
  end.

(** The events of [n] failed attempts followed by a last one: a wait of
    1000 ms between any two calls. *)
Fixpoint attempts (g : Handle) (n : nat) : list event :=
  match n with
  | O => [Invoke g]
  | S n => Invoke g :: Wait 1000 :: attempts g n
  end.

(** What the specification expects when the attempts are used up: an
    error of kind [RetryExhausted] whose cause is the last failure. *)
Definition wrapsAsRetryExhausted (e last : error) : Prop :=
  name e = "RetryExhausted" ∧ cause e = Some last.

(** The criterion of the specification for the credentials error, by
    source: the credentials argument, or the environment, "yields both an
    access key id and a secret access key". *)
Definition argumentYieldsBoth (credentials : gmap string value) : bool :=
  (truthy (get credentials "accessKey")
   || truthy (get credentials "accessKeyId"))
  && (truthy (get credentials "secretKey")
      || truthy (get credentials "secretAccessKey")).

Definition environmentYieldsBoth (env : gmap string string) : bool :=
  truthy (env_get env "AWS_ACCESS_KEY_ID")
  && truthy (env_get env "AWS_SECRET_ACCESS_KEY").

(** A key is available to [getHeaders] when the credentials argument has
    it under one of its two names or the environment has it. *)
Definition available (credentials : gmap string value)
    (env : gmap string string) (key1 key2 envName : string) : bool :=
  truthy (get credentials key1) || truthy (get credentials key2)
  || truthy (env_get env envName).

(** Concrete inputs. *)
Module Sample.

Definition sign : SignOptions → SignCredentials → gmap string value :=
  λ options credentials,
    {[ "Host" := VStr (so_host options);
       "Authorization" := accessKeyId credentials ]}.

Definition noFocus : Focus → Graph → list (gmap string value) := λ _ _, [].

(** Two vertices, no edge. *)
Definition twoVertices : Graph :=
  {| vertices :=
       {[ "v1" := {| v_label := "person";
                     v_props := {[ "name" := [VStr "Eric"] ]} |};
          "v2" := {| v_label := "car"; v_props := ∅ |} ]};
     Gremlin.edges := ∅ |}.

Definition remote1 : DriverRemoteConnection :=
  {| url := "wss://db.example:8182/gremlin";
     mimeType := "application/vnd.gremlin-v2.0+json";
     headers := ∅;
     serial := 1 |}.

(** A connected [Connection] in front of [G]. *)
Definition connected (G : Graph) : State Graph :=
  {| this := {| host := VStr "db.example"; port := VNum 8182;
                useIam := false; connection := Some remote1 |};
     world := G;
     process_env := ∅;
     built := 1;
     trace := [] |}.

(** A query function that fails every time with the same message. *)
Definition failing (msg : string) : Handle → Graph → Graph * completion value :=
  λ _ G, (G, Throws (Error msg)).

Definition conflict : Handle → Graph → Graph * completion value :=
  failing "ConcurrentModificationException: retry".

Definition unknown : Handle → Graph → Graph * completion value :=
  failing "Vertex with id already exists".

Definition socketClosed : Handle → Graph → Graph * completion value :=
  failing "WebSocket is not open: readyState 3 (CLOSED)".

(** The same vertex saved twice: first with a property called
    ["constructor"], then with a property ["name"] only. *)
Definition acme : NodeModel :=
  {| node_id := "v1";
     node_properties := {[ "constructor" := VStr "acme" ]};
     node_labels := ["building"] |}.

Definition renamed : NodeModel :=
  {| node_id := "v1";
     node_properties := {[ "name" := VStr "x" ]};
     node_labels := ["building"] |}.

Definition owns : EdgeModel :=
  {| edge_id := "e1"; edge_label := "owns"; edge_to := "v2";
     edge_from := "v1"; edge_properties := {[ "since" := VNum 2020 ]} |}.

(** Raw rows as the two traversals of [search] return them. *)
Definition rawNode : gmap string value :=
  {[ "id" := VStr "v1"; "label" := VStr "person";
     "name" := VArr [VStr "Eric"];
     "nick" := VArr [VStr "E"; VStr "Rick"] ]}.

Definition rawNodes : list (gmap string value) :=
  [ rawNode; {[ "id" := VStr "v2"; "label" := VStr "car" ]} ].


Definition builtEdge : Edge.t :=
  {| Edge.id := VStr "e1"; Edge.label := VStr "owns";
     Edge.from := VStr "v1"; Edge.to := VStr "v2";
     Edge.properties := {[ "since" := VNum 2020 ]} |}.


(** The access key passed as an argument, the secret key found in the
    environment, no session token and no region anywhere. *)
Definition credentials : gmap string value := {[ "accessKey" := VStr "AKIA" ]}.
Definition env : gmap string string :=
  {[ "AWS_SECRET_ACCESS_KEY" := "secret" ]}.

End Sample.

(* ================================================================== *)
(** * Further notions                                                  *)
(* ================================================================== *)

(** A graph is closed when both ends of every edge are vertices of it. *)
Definition closed (G : Graph) : Prop :=
  ∀ j e, edges G !! j = Some e →
         hasV (e_outV e) G = true ∧ hasV (e_inV e) G = true.

(** What a vertex and an edge keep through a change of properties. *)
Definition vertexShape (v : Vertex) : string := v_label v.

Definition edgeShape (e : Edge) : string * string * string :=
  (e_label e, e_outV e, e_inV e).

(** The rows [search] reads carry the id, the label and the two ends of
    an element under the keys ["id"], ["label"], ["IN"] and ["OUT"].  A
    graph is plain when no property of its elements has one of those
    names. *)
Definition plain (G : Graph) : Prop :=
  (∀ j v, vertices G !! j = Some v →
          v_props v !! "id" = None ∧ v_props v !! "label" = None)
  ∧ (∀ j e, edges G !! j = Some e →
            ∀ q, q ∈ ["id"; "label"; "IN"; "OUT"] → e_props e !! q = None).

(** The node [search] returns for a vertex and the edge it returns for
    an edge of a plain graph. *)
Definition nodeOf (id : string) (v : Vertex) : Node.t :=
  {| Node.id := VStr id;
     Node.labels := VArr [VStr (v_label v)];
     Node.properties := stored <$> (VArr <$> v_props v) |}.

Definition edgeOf (id : string) (e : Edge) : Edge.t :=
  {| Edge.id := VStr id;
     Edge.label := VStr (e_label e);
     Edge.from := VStr (e_inV e);
     Edge.to := VStr (e_outV e);
     Edge.properties := e_props e |}.

(** Further concrete inputs. *)
Module Sample2.

(** A vertex with two ordinary properties and an edge with one. *)
Definition graph : Graph :=
  {| vertices :=
       {[ "v1" := {| v_label := "person";
                     v_props := {[ "name" := [VStr "Eric"];
                                   "age" := [VNum 40; VNum 41] ]} |};
          "v2" := {| v_label := "car"; v_props := ∅ |} ]};
     Gremlin.edges :=
       {[ "e1" := {| e_label := "owns"; e_outV := "v2"; e_inV := "v1";
                     e_props := {[ "since" := VNum 2020 ]} |} ]} |}.

Definition desired : gmap string value :=
  {[ "name" := VStr "Erik"; "city" := VStr "Oslo" ]}.

Definition erik : NodeModel :=
  {| node_id := "v1"; node_properties := desired;
     node_labels := ["employee"; "manager"] |}.

Definition newcomer : NodeModel :=
  {| node_id := "v3"; node_properties := desired;
     node_labels := ["person"; "guest"] |}.

(** An edge with the id of the stored one but another label and other
    ends. *)
Definition relabelled : EdgeModel :=
  {| edge_id := "e1"; edge_label := "rents"; edge_to := "v1";
     edge_from := "v2"; edge_properties := {[ "until" := VNum 2030 ]} |}.

(** A new edge to a vertex that does not exist. *)
Definition dangling : EdgeModel :=
  {| edge_id := "e2"; edge_label := "owns"; edge_to := "v9";
     edge_from := "v1"; edge_properties := ∅ |}.

(** A new edge between the two vertices. *)
Definition likes : EdgeModel :=
  {| edge_id := "e2"; edge_label := "likes"; edge_to := "v2";
     edge_from := "v1"; edge_properties := {[ "much" := VBool true ]} |}.

(** A query function on a counter: it reports a conflict on its first two
    calls and returns the count afterwards. *)
Definition flaky (g : Handle) (calls : nat) : nat * completion value :=
  (S calls,
   if (calls <? 2)%nat
   then Throws (Error "ConcurrentModificationException: try again")
   else Returns (VNum (Z.of_nat calls))).

Definition counting : State nat :=
  {| this := {| host := VStr "db.example"; port := VNum 8182;
                useIam := false; connection := Some Sample.remote1 |};
     world := 0%nat;
     process_env := ∅;
     built := 1;
     trace := [] |}.

(** An instance that signs its requests, and an environment that holds
    the two keys and a region. *)
Definition signing : State Graph :=
  {| this := {| host := VStr "db.example"; port := VNum 8182;
                useIam := true; connection := None |};
     world := Gremlin.empty;
     process_env := {[ "AWS_ACCESS_KEY_ID" := "AKIA";
                       "AWS_SECRET_ACCESS_KEY" := "secret";
                       "AWS_DEFAULT_REGION" := "eu-west-1" ]};
     built := 0;
     trace := [] |}.

End Sample2.

(* ================================================================== *)
(** * Facts about the JavaScript fragment                              *)
(* ================================================================== *)

Lemma has_in_own {A} (k : string) (o : gmap string A) :
  is_Some (o !! k) → has_in k o = true.
Proof.
  intros Hk. unfold has_in. by rewrite bool_decide_eq_true_2.
Qed.

Lemma has_in_inherited {A} (k : string) (o : gmap string A) :
  k ∈ Object_prototype → has_in k o = true.
Proof.
  intros Hk. unfold has_in.
  rewrite (bool_decide_eq_true_2 (k ∈ Object_prototype)) by done.
  apply orb_true_r.
Qed.

Lemma has_in_false {A} (k : string) (o : gmap string A) :
  has_in k o = false ↔ o !! k = None ∧ k ∉ Object_prototype.
Proof.
  unfold has_in. rewrite orb_false_iff, !bool_decide_eq_false.
  by rewrite <-eq_None_not_Some.
Qed.

(** [===] on strings, numbers and booleans is equality. *)
Lemma strict_eq_primitive (a b : value) :
  primitive a → strict_eq a b = true ↔ a = b.
Proof.
  destruct a, b; simpl; try done; intros _.
  - destruct b, b0; simpl; split; congruence.
  - rewrite Z.eqb_eq. split; congruence.
  - rewrite String.eqb_eq. split; congruence.
Qed.

Lemma strict_eq_sound (a b : value) : strict_eq a b = true → a = b.
Proof.
  destruct a, b; simpl; try done.
  - destruct b, b0; simpl; congruence.
  - rewrite Z.eqb_eq. congruence.
  - rewrite String.eqb_eq. congruence.
Qed.

Lemma lookup_dropMissing {A B} props (existing : list (string * B))
    (m : gmap string A) (k : string) :
  dropMissing props existing m !! k =
    if bool_decide (k ∈ existing.*1) && negb (has_in k props)
    then None else m !! k.
Proof.
  unfold dropMissing. revert m.
  induction existing as [|[k' b] l IH]; intros m; [done|].
  rewrite fmap_cons. cbn [foldl fst]. rewrite IH. clear IH.
  destruct (decide (k = k')) as [->|Hne].
  - rewrite (bool_decide_eq_true_2 (k' ∈ k' :: l.*1)) by left.
    destruct (has_in k' props); simpl.
    + by rewrite andb_false_r.
    + rewrite lookup_delete_eq. by destruct (bool_decide _).
  - assert (bool_decide (k ∈ k' :: l.*1) = bool_decide (k ∈ l.*1)) as ->.
    { apply bool_decide_ext. rewrite elem_of_cons.
      split; [intros [?|?]; [congruence|done] | by right]. }
    destruct (_ && _); [done|].
    destruct (negb (has_in k' props)); [|done].
    by rewrite lookup_delete_ne.
Qed.

Lemma lookup_setAll_notin {A B} (f : B → A) (props : list (string * B))
    (m : gmap string A) (k : string) :
  k ∉ props.*1 → setAll f props m !! k = m !! k.
Proof.
  unfold setAll. revert m.
  induction props as [|[k' b] l IH]; intros m Hk; simpl; [done|].
  rewrite fmap_cons, not_elem_of_cons in Hk. destruct Hk as [Hne Hk].
  rewrite IH by done. by rewrite lookup_insert_ne.
Qed.

Lemma lookup_setAll_in {A B} (f : B → A) (props : list (string * B))
    (m : gmap string A) (k : string) (b : B) :
  NoDup props.*1 → (k, b) ∈ props → setAll f props m !! k = Some (f b).
Proof.
  revert m.
  induction props as [|[k' b'] l IH]; intros m Hnd Hin; simpl.
  { by apply elem_of_nil in Hin. }
  rewrite fmap_cons in Hnd. apply NoDup_cons in Hnd as [Hk' Hnd].
  apply elem_of_cons in Hin as [Heq|Hin].
  - injection Heq as <- <-.
    change (setAll f l (<[k:=f b]> m) !! k = Some (f b)).
    rewrite lookup_setAll_notin by done. apply lookup_insert_eq.
  - by apply IH.
Qed.

Lemma lookup_setAll_map {A B} (f : B → A) (props : gmap string B)
    (m : gmap string A) (k : string) :
  setAll f (map_to_list props) m !! k =
    match props !! k with
    | Some b => Some (f b)
    | None => m !! k
    end.
Proof.
  destruct (props !! k) as [b|] eqn:Hk.
  - apply lookup_setAll_in; [apply NoDup_fst_map_to_list|].
    by apply elem_of_map_to_list.
  - apply lookup_setAll_notin. intros Hin.
    apply list_elem_of_fmap in Hin as ([k' b] & -> & Hin).
    apply elem_of_map_to_list in Hin. simpl in Hk. congruence.
Qed.

Lemma elem_of_keys_map_to_list {A} (m : gmap string A) (k : string) :
  k ∈ (map_to_list m).*1 ↔ is_Some (m !! k).
Proof.
  split.
  - intros Hin. apply list_elem_of_fmap in Hin as ([k' a] & -> & Hin).
    apply elem_of_map_to_list in Hin. eauto.
  - intros [a Ha]. apply list_elem_of_fmap. exists (k, a).
    split; [done|]. by apply elem_of_map_to_list.
Qed.

(* ================================================================== *)
(** * Facts about the graph engine                                     *)
(* ================================================================== *)

Lemma Graph_eq (G1 G2 : Graph) :
  vertices G1 = vertices G2 → edges G1 = edges G2 → G1 = G2.
Proof. destruct G1, G2; simpl; congruence. Qed.

Lemma drop_loop_vertex {B} (id : string) (props : gmap string value)
    (existing : list (string * B)) (G : Graph) :
  foldl (λ G kv, if negb (has_in kv.1 props)
                 then dropProperty true id kv.1 G else G) G existing
  = with_vertices (alter (with_v_props (dropMissing props existing)) id) G.
Proof.
  revert G. induction existing as [|[k b] l IH]; intros G; simpl.
  - apply Graph_eq; [|done]. simpl. symmetry. apply alter_id.
    by intros [] _.
  - rewrite IH. apply Graph_eq; simpl.
    + destruct (has_in k props) eqn:Hk; simpl.
      * apply alter_ext. intros v _. unfold with_v_props, dropMissing.
        simpl. by rewrite Hk.
      * rewrite alter_alter_eq. apply alter_ext. intros v _.
        unfold with_v_props, dropMissing. simpl. by rewrite Hk.
    + by destruct (has_in k props).
Qed.

Lemma drop_loop_edge {B} (id : string) (props : gmap string value)
    (existing : list (string * B)) (G : Graph) :
  foldl (λ G kv, if negb (has_in kv.1 props)
                 then dropProperty false id kv.1 G else G) G existing
  = with_edges (alter (with_e_props (dropMissing props existing)) id) G.
Proof.
  revert G. induction existing as [|[k b] l IH]; intros G; simpl.
  - apply Graph_eq; [done|]. simpl. symmetry. apply alter_id.
    by intros [] _.
  - rewrite IH. apply Graph_eq; simpl.
    + by destruct (has_in k props).
    + destruct (has_in k props) eqn:Hk; simpl.
      * apply alter_ext. intros e _. unfold with_e_props, dropMissing.
        simpl. by rewrite Hk.
      * rewrite alter_alter_eq. apply alter_ext. intros e _.
        unfold with_e_props, dropMissing. simpl. by rewrite Hk.
Qed.

Lemma set_loop_vertex (id : string) (props : list (string * value)) (G : Graph) :
  foldl (λ G kv, propertySingle id kv.1 kv.2 G) G props
  = with_vertices (alter (with_v_props (setAll (λ x, [x]) props)) id) G.
Proof.
  revert G. induction props as [|[k b] l IH]; intros G; simpl.
  - apply Graph_eq; [|done]. simpl. symmetry. apply alter_id.
    by intros [] _.
  - rewrite IH. apply Graph_eq; simpl; [|done].
    rewrite alter_alter_eq. by apply alter_ext.
Qed.

Lemma set_loop_edge (id : string) (props : list (string * value)) (G : Graph) :
  foldl (λ G kv, property id kv.1 kv.2 G) G props
  = with_edges (alter (with_e_props (setAll (λ x, x) props)) id) G.
Proof.
  revert G. induction props as [|[k b] l IH]; intros G; simpl.
  - apply Graph_eq; [done|]. simpl. symmetry. apply alter_id.
    by intros [] _.
  - rewrite IH. apply Graph_eq; simpl; [done|].
    rewrite alter_alter_eq. by apply alter_ext.
Qed.

(* ================================================================== *)
(** * updateProperties: what the two loops leave behind                *)
(* ================================================================== *)

Lemma updateProperties_vertex_eq (id : string) (props : gmap string value)
    (G : Graph) (v : Vertex) :
  vertices G !! id = Some v →
  updateProperties id props true G =
    with_vertices
      (alter (with_v_props
                (λ m, setAll (λ x, [x]) (map_to_list props)
                        (dropMissing props (map_to_list (VArr <$> v_props v)) m)))
             id) G.
Proof.
  intros Hv. unfold updateProperties, valueMap, for_in. rewrite Hv.
  cbn [head from_option Datatypes.id].
  rewrite (drop_loop_vertex id props), (set_loop_vertex id).
  apply Graph_eq; simpl; [|done].
  rewrite alter_alter_eq. by apply alter_ext.
Qed.

Lemma updateProperties_edge_eq (id : string) (props : gmap string value)
    (G : Graph) (e : Edge) :
  edges G !! id = Some e →
  updateProperties id props false G =
    with_edges
      (alter (with_e_props
                (λ m, setAll (λ x, x) (map_to_list props)
                        (dropMissing props (map_to_list (e_props e)) m)))
             id) G.
Proof.
  intros He. unfold updateProperties, valueMap, for_in. rewrite He.
  cbn [head from_option Datatypes.id].
  rewrite (drop_loop_edge id props), (set_loop_edge id).
  apply Graph_eq; simpl; [done|].
  rewrite alter_alter_eq. by apply alter_ext.
Qed.

(** After [updateProperties] on a vertex: a key of [props] holds exactly
    the one value given; any other key keeps what it held when [key in
    props] is true and is gone otherwise.  Label, other vertices and all
    edges are untouched. *)
Lemma updateProperties_vertex (id : string) (props : gmap string value)
    (G : Graph) (v : Vertex) :
  vertices G !! id = Some v →
  ∃ v', vertices (updateProperties id props true G) !! id = Some v'
      ∧ v_label v' = v_label v
      ∧ (∀ k, v_props v' !! k =
              match props !! k with
              | Some x => Some [x]
              | None => if has_in k props then v_props v !! k else None
              end)
      ∧ (∀ j, j ≠ id →
              vertices (updateProperties id props true G) !! j = vertices G !! j)
      ∧ edges (updateProperties id props true G) = edges G.
Proof.
  intros Hv. rewrite (updateProperties_vertex_eq id props G v Hv). simpl.
  eexists. split; [by rewrite lookup_alter_eq, Hv|]. simpl.
  split; [done|]. split; [|split; [|done]].
  - intros k. rewrite lookup_setAll_map.
    destruct (props !! k) as [x|] eqn:Hk; [done|].
    rewrite lookup_dropMissing.
    destruct (has_in k props); simpl; [by rewrite andb_false_r|].
    rewrite andb_true_r. case_bool_decide as Hin; [done|].
    rewrite elem_of_keys_map_to_list, lookup_fmap, fmap_is_Some in Hin.
    by apply eq_None_not_Some.
  - intros j Hj. by rewrite lookup_alter_ne.
Qed.

(** The same for an edge, whose properties hold the bare value. *)
Lemma updateProperties_edge (id : string) (props : gmap string value)
    (G : Graph) (e : Edge) :
  edges G !! id = Some e →
  ∃ e', edges (updateProperties id props false G) !! id = Some e'
      ∧ e_label e' = e_label e ∧ e_outV e' = e_outV e ∧ e_inV e' = e_inV e
      ∧ (∀ k, e_props e' !! k =
              match props !! k with
              | Some x => Some x
              | None => if has_in k props then e_props e !! k else None
              end)
      ∧ (∀ j, j ≠ id →
              edges (updateProperties id props false G) !! j = edges G !! j)
      ∧ vertices (updateProperties id props false G) = vertices G.
Proof.
  intros He. rewrite (updateProperties_edge_eq id props G e He). simpl.
  eexists. split; [by rewrite lookup_alter_eq, He|]. simpl.
  do 3 (split; [done|]). split; [|split; [|done]].
  - intros k. rewrite lookup_setAll_map.
    destruct (props !! k) as [x|] eqn:Hk; [done|].
    rewrite lookup_dropMissing.
    destruct (has_in k props); simpl; [by rewrite andb_false_r|].
    rewrite andb_true_r. case_bool_decide as Hin; [done|].
    rewrite elem_of_keys_map_to_list in Hin.
    by apply eq_None_not_Some.
  - intros j Hj. by rewrite lookup_alter_ne.
Qed.

(** On an element that does not exist [updateProperties] changes nothing. *)
Lemma updateProperties_missing (id : string) (props : gmap string value)
    (isNode : bool) (G : Graph) :
  (if isNode then vertices G !! id = None else edges G !! id = None) →
  updateProperties id props isNode G = G.
Proof.
  intros Hmiss. unfold updateProperties, valueMap, for_in.
  destruct isNode; rewrite Hmiss; cbn [head from_option Datatypes.id];
    rewrite map_to_list_empty; cbn [foldl].
  - rewrite (set_loop_vertex id). apply Graph_eq; simpl; [|done].
    apply map_eq. intros j. destruct (decide (id = j)) as [<-|Hne].
    + by rewrite lookup_alter_eq, Hmiss.
    + by rewrite lookup_alter_ne.
  - rewrite (set_loop_edge id). apply Graph_eq; simpl; [done|].
    apply map_eq. intros j. destruct (decide (id = j)) as [<-|Hne].
    + by rewrite lookup_alter_eq, Hmiss.
    + by rewrite lookup_alter_ne.
Qed.

(** When no key that is to go is a member name of [Object.prototype], the
    element ends up with exactly the desired properties. *)
Lemma updateProperties_exact_vertex (id : string) (props : gmap string value)
    (G : Graph) (v : Vertex) :
  vertices G !! id = Some v →
  (∀ k, is_Some (v_props v !! k) → props !! k = None → k ∉ Object_prototype) →
  vertices (updateProperties id props true G) !! id =
    Some {| v_label := v_label v; v_props := (λ x, [x]) <$> props |}.
Proof.
  intros Hv Hplain.
  destruct (updateProperties_vertex id props G v Hv)
    as ([l' p'] & -> & Hl & Hp & _). simpl in *. subst l'.
  do 2 f_equal. apply map_eq. intros k. rewrite Hp, lookup_fmap.
  destruct (props !! k) as [x|] eqn:Hk; [done|]. simpl.
  destruct (has_in k props) eqn:Hin; [|done].
  destruct (v_props v !! k) as [xs|] eqn:Hvk; [|done].
  exfalso. unfold has_in in Hin. rewrite Hk in Hin.
  rewrite bool_decide_eq_false_2 in Hin by (by intros []).
  simpl in Hin. apply bool_decide_eq_true in Hin.
  by apply (Hplain k).
Qed.

Lemma updateProperties_exact_edge (id : string) (props : gmap string value)
    (G : Graph) (e : Edge) :
  edges G !! id = Some e →
  (∀ k, is_Some (e_props e !! k) → props !! k = None → k ∉ Object_prototype) →
  edges (updateProperties id props false G) !! id =
    Some {| e_label := e_label e; e_outV := e_outV e; e_inV := e_inV e;
            e_props := props |}.
Proof.
  intros He Hplain.
  destruct (updateProperties_edge id props G e He)
    as ([l' o' i' p'] & -> & Hl & Ho & Hi & Hp & _). simpl in *. subst.
  do 2 f_equal. apply map_eq. intros k. rewrite Hp.
  destruct (props !! k) as [x|] eqn:Hk; [done|].
  destruct (has_in k props) eqn:Hin; [|done].
  destruct (e_props e !! k) as [xs|] eqn:Hek; [|done].
  exfalso. unfold has_in in Hin. rewrite Hk in Hin.
  rewrite bool_decide_eq_false_2 in Hin by (by intros []).
  simpl in Hin. apply bool_decide_eq_true in Hin.
  by apply (Hplain k).
Qed.

(** C1 (the code departs from the claim).  The claim: after
    [updateProperties] the element's property mapping is exactly the
    desired one, every key of the current mapping that is not desired
    having been removed.  The code tests [ep in props], which is also true
    for the names a plain object inherits, so a current property called
    ["constructor"] survives a reconciliation that does not list it: the
    vertex ends with both properties instead of the one desired. *)
Theorem updateProperties_keeps_inherited_name :
  let G := {| vertices :=
                {[ "v1" := {| v_label := "building";
                              v_props := {[ "constructor" := [VStr "acme"] ]} |} ]};
              edges := ∅ |} in
  let props : gmap string value := {[ "name" := VStr "x" ]} in
  vertices (updateProperties "v1" props true G) !! "v1" =
    Some {| v_label := "building";
            v_props := {[ "constructor" := [VStr "acme"];
                          "name" := [VStr "x"] ]} |}
  ∧ vertices (updateProperties "v1" props true G) !! "v1" ≠
    Some {| v_label := "building"; v_props := (λ x, [x]) <$> props |}.
Proof.
  split; [by vm_compute|].
  intros Heq.
  apply (f_equal (λ o, o ≫= λ v, v_props v !! "constructor")) in Heq.
  vm_compute in Heq. discriminate Heq.
Qed.

(** The same through [saveNode]: the property saved by a first call is
    still there after a second call that no longer lists it. *)
Lemma saveNode_keeps_inherited_name :
  ∃ st1 st2,
    saveNode Sample.sign Sample.acme (Sample.connected Gremlin.empty)
      = (st1, Resolved VUndefined)
    ∧ saveNode Sample.sign Sample.renamed st1 = (st2, Resolved VUndefined)
    ∧ vertices (world st2) !! "v1" =
        Some {| v_label := "building";
                v_props := {[ "constructor" := [VStr "acme"];
                              "name" := [VStr "x"] ]} |}.
Proof.
  eexists _, _. split; [vm_compute; reflexivity|].
  split; vm_compute; reflexivity.
Qed.

(* ================================================================== *)
(** * search: the two loops                                            *)
(* ================================================================== *)

Lemma nodeExists_true (nodes : list Node.t) (id : value) :
  nodeExists nodes id = true ↔
  ∃ node, node ∈ nodes ∧ strict_eq (Node.id node) id = true.
Proof.
  induction nodes as [|n nodes IH]; simpl.
  - split; [done|]. intros (n & Hn & _). by apply elem_of_nil in Hn.
  - destruct (strict_eq (Node.id n) id) eqn:Hid.
    + split; [|done]. intros _. exists n. split; [left|done].
    + rewrite IH. split.
      * intros (n' & Hn' & Heq). exists n'. split; [by right|done].
      * intros (n' & Hn' & Heq). apply elem_of_cons in Hn' as [->|Hn'].
        { congruence. }
        by exists n'.
Qed.

Lemma node_loop (rawNodes : list (gmap string value)) (acc : list Node.t) :
  foldl (λ nodes n, nodes ++ [toNode n]) acc rawNodes
  = acc ++ (toNode <$> rawNodes).
Proof.
  revert acc. induction rawNodes as [|n l IH]; intros acc; simpl.
  - by rewrite app_nil_r.
  - rewrite IH. by rewrite <-app_assoc.
Qed.

Lemma edge_loop_throws (nodes : list Node.t)
    (rawEdges : list (gmap string value)) (err : error) :
  foldl (λ acc e, edges ← acc; pushEdge nodes edges e) (Throws err) rawEdges
  = Throws err.
Proof. induction rawEdges as [|e l IH]; simpl; [done|apply IH]. Qed.

(** The edges pushed by the second loop: those already there, and the
    edges of the raw rows whose two ends [nodeExists] finds. *)
Lemma edge_loop (nodes : list Node.t) (rawEdges : list (gmap string value))
    (acc out : list Edge.t) :
  foldl (λ acc e, edges ← acc; pushEdge nodes edges e) (Returns acc) rawEdges
    = Returns out →
  ∀ edge, edge ∈ out ↔
    edge ∈ acc ∨
    ∃ e, e ∈ rawEdges ∧ toEdge e = Returns edge
       ∧ nodeExists nodes (Edge.from edge) = true
       ∧ nodeExists nodes (Edge.to edge) = true.
Proof.
  revert acc. induction rawEdges as [|e l IH]; intros acc Hout edge.
  - simpl in Hout. injection Hout as <-. split; [by left|].
    intros [?|(e & He & _)]; [done|]. by apply elem_of_nil in He.
  - cbn [foldl] in Hout. unfold pushEdge at 2 in Hout.
    cbn [mbind completion_bind] in Hout.
    destruct (toEdge e) as [edge0|err] eqn:He.
    2:{ cbn in Hout. by rewrite edge_loop_throws in Hout. }
    cbn [mbind completion_bind] in Hout.
    destruct (nodeExists nodes (Edge.from edge0)
              && nodeExists nodes (Edge.to edge0)) eqn:Hcond.
    + rewrite (IH _ Hout edge), elem_of_app, list_elem_of_singleton.
      apply andb_true_iff in Hcond as [Hfrom Hto]. split.
      * intros [[?| ->]|(e' & He' & ?)]; [by left| |].
        { right. exists e. split; [left|done]. }
        right. exists e'. split; [by right|done].
      * intros [?|(e' & He' & Hedge & ? & ?)]; [by left; left|].
        apply elem_of_cons in He' as [->|He'].
        { left; right. congruence. }
        right. by exists e'.
    + rewrite (IH _ Hout edge). split.
      * intros [?|(e' & He' & ?)]; [by left|].
        right. exists e'. split; [by right|done].
      * intros [?|(e' & He' & Hedge & Hfrom & Hto)]; [by left|].
        apply elem_of_cons in He' as [->|He'].
        { rewrite He in Hedge. injection Hedge as ->.
          rewrite Hfrom, Hto in Hcond. discriminate Hcond. }
        right. by exists e'.
Qed.

(** The inner loop of the second loop: one raw row, key by key. *)
Lemma edgeField_cases (k : string) (v : value) (acc acc' : Edge.t) :
  edgeField k v acc = Returns acc' →
  (k = "id" ∧ acc' = Edge.set_id v acc)
  ∨ (k = "label" ∧ acc' = Edge.set_label v acc)
  ∨ (k = "IN" ∧ ∃ x, member_id v = Returns x ∧ acc' = Edge.set_from x acc)
  ∨ (k = "OUT" ∧ ∃ x, member_id v = Returns x ∧ acc' = Edge.set_to x acc)
  ∨ (k ≠ "id" ∧ k ≠ "label" ∧ k ≠ "IN" ∧ k ≠ "OUT"
     ∧ acc' = Edge.set_property k v acc).
Proof.
  unfold edgeField.
  destruct (String.eqb_spec k "id") as [->|Hid].
  { intros [= <-]. by left. }
  destruct (String.eqb_spec k "label") as [->|Hlabel].
  { intros [= <-]. right; by left. }
  destruct (String.eqb_spec k "IN") as [->|Hin].
  { destruct (member_id v) as [x|err] eqn:Hv; cbn; [|done].
    intros [= <-]. right; right; left. eauto. }
  destruct (String.eqb_spec k "OUT") as [->|Hout].
  { destruct (member_id v) as [x|err] eqn:Hv; cbn; [|done].
    intros [= <-]. right; right; right; left. eauto. }
  intros [= <-]. by repeat right.
Qed.

Lemma field_loop_throws (l : list (string * value)) (err : error) :
  foldl (λ acc kv, acc ≫= edgeField kv.1 kv.2) (Throws err) l = Throws err.
Proof. induction l as [|kv l IH]; [done|apply IH]. Qed.

Lemma field_loop (l : list (string * value)) (acc edge : Edge.t) :
  NoDup l.*1 →
  foldl (λ acc kv, acc ≫= edgeField kv.1 kv.2) (Returns acc) l = Returns edge →
  let m : gmap string value := list_to_map l in
  Edge.id edge = default (Edge.id acc) (m !! "id")
  ∧ Edge.label edge = default (Edge.label acc) (m !! "label")
  ∧ match m !! "IN" with
    | Some v => member_id v = Returns (Edge.from edge)
    | None => Edge.from edge = Edge.from acc
    end
  ∧ match m !! "OUT" with
    | Some v => member_id v = Returns (Edge.to edge)
    | None => Edge.to edge = Edge.to acc
    end
  ∧ ∀ q, Edge.properties edge !! q =
      if bool_decide (q ∈ ["id"; "label"; "IN"; "OUT"])
      then Edge.properties acc !! q
      else match m !! q with
           | Some v => Some v
           | None => Edge.properties acc !! q
           end.
Proof.
  revert acc. induction l as [|[k v] l IH]; intros acc Hnd Hloop m.
  { cbn in Hloop. injection Hloop as <-. subst m. cbn.
    repeat split; try done. intros q. by destruct (bool_decide _). }
  rewrite fmap_cons in Hnd. apply NoDup_cons in Hnd as [Hk Hnd].
  cbn [foldl] in Hloop.
  change ((Returns acc : completion Edge.t) ≫= edgeField (k, v).1 (k, v).2)
    with (edgeField k v acc) in Hloop.
  destruct (edgeField k v acc) as [acc1|err] eqn:Hfield.
  2:{ by rewrite field_loop_throws in Hloop. }
  destruct (IH acc1 Hnd Hloop) as (Hid & Hlabel & Hfrom & Hto & Hprops).
  assert ((list_to_map l : gmap string value) !! k = None) as Hfresh
    by by apply not_elem_of_list_to_map_1.
  subst m. cbn [list_to_map foldr fst snd uncurry].
  destruct (edgeField_cases _ _ _ _ Hfield)
    as [[-> ->]|[[-> ->]|[[-> (x & Hx & ->)]|[[-> (x & Hx & ->)]
       |(Hn1 & Hn2 & Hn3 & Hn4 & ->)]]]];
    cbn [Edge.id Edge.label Edge.from Edge.to Edge.properties
         Edge.set_id Edge.set_label Edge.set_from Edge.set_to
         Edge.set_property] in *;
    rewrite ?lookup_insert_eq, ?lookup_insert_ne by done;
    rewrite ?Hfresh in *; cbn [from_option] in *.
  all: repeat split; try done; try congruence.
  1-4: intros q; rewrite Hprops; case_bool_decide as Hq; [done|];
       rewrite lookup_insert_ne; [done|];
       intros <-; apply Hq, list_elem_of_In; simpl; tauto.
  intros q. rewrite Hprops. case_bool_decide as Hq.
  - rewrite lookup_insert_ne; [done|]. intros ->.
    apply list_elem_of_In in Hq. simpl in Hq. intuition congruence.
  - destruct (decide (k = q)) as [->|Hne].
    + by rewrite Hfresh, !lookup_insert_eq.
    + by rewrite !lookup_insert_ne.
Qed.

(** The edge built from a raw row: [id] and [label] are the values under
    those keys, [from] is the [id] of the value under ["IN"], [to] the
    [id] of the value under ["OUT"], and every other key is a property.
    A key that is missing leaves the field at its initial [""]. *)
Lemma toEdge_fields (e : gmap string value) (edge : Edge.t) :
  toEdge e = Returns edge →
  Edge.id edge = default (VStr "") (e !! "id")
  ∧ Edge.label edge = default (VStr "") (e !! "label")
  ∧ match e !! "IN" with
    | Some v => member_id v = Returns (Edge.from edge)
    | None => Edge.from edge = VStr ""
    end
  ∧ match e !! "OUT" with
    | Some v => member_id v = Returns (Edge.to edge)
    | None => Edge.to edge = VStr ""
    end
  ∧ ∀ q, Edge.properties edge !! q =
      if bool_decide (q ∈ ["id"; "label"; "IN"; "OUT"]) then None
      else e !! q.
Proof.
  intros Hedge. unfold toEdge, for_in_try in Hedge.
  apply field_loop in Hedge; [|apply NoDup_fst_map_to_list].
  rewrite list_to_map_to_list in Hedge. cbn in Hedge.
  destruct Hedge as (Hid & Hlabel & Hfrom & Hto & Hprops).
  repeat split; try done.
  intros q. rewrite Hprops. case_bool_decide; [done|].
  by destruct (e !! q).
Qed.

(** A row builds an edge unless the value under ["IN"] or ["OUT"] is
    [undefined] or [null]. *)
Lemma field_loop_returns (l : list (string * value)) (acc : Edge.t) :
  (∀ k v, (k, v) ∈ l → k = "IN" ∨ k = "OUT" → v ≠ VUndefined ∧ v ≠ VNull) →
  ∃ edge,
    foldl (λ acc kv, acc ≫= edgeField kv.1 kv.2) (Returns acc) l
      = Returns edge.
Proof.
  revert acc. induction l as [|[k v] l IH]; intros acc Hends; [by eexists|].
  cbn [foldl].
  change ((Returns acc : completion Edge.t) ≫= edgeField (k, v).1 (k, v).2)
    with (edgeField k v acc).
  assert (∃ acc1, edgeField k v acc = Returns acc1) as [acc1 ->].
  { unfold edgeField.
    destruct (String.eqb_spec k "id"); [by eexists|].
    destruct (String.eqb_spec k "label"); [by eexists|].
    destruct (String.eqb_spec k "IN") as [->|].
    { destruct (Hends "IN" v) as [Hu Hn]; [left|by left|].
      destruct v; try done; by eexists. }
    destruct (String.eqb_spec k "OUT") as [->|]; [|by eexists].
    destruct (Hends "OUT" v) as [Hu Hn]; [left|by right|].
    destruct v; try done; by eexists. }
  apply IH. intros k' v' Hin. apply Hends. by right.
Qed.

Lemma toEdge_returns (e : gmap string value) :
  (∀ v, e !! "IN" = Some v → v ≠ VUndefined ∧ v ≠ VNull) →
  (∀ v, e !! "OUT" = Some v → v ≠ VUndefined ∧ v ≠ VNull) →
  ∃ edge, toEdge e = Returns edge.
Proof.
  intros Hin Hout. apply field_loop_returns.
  intros k v Hkv%elem_of_map_to_list [-> | ->]; [by apply Hin|by apply Hout].
Qed.

(** The second loop never throws on its own: it returns as soon as every
    row builds an edge. *)
Lemma edge_loop_returns (nodes : list Node.t)
    (rawEdges : list (gmap string value)) (acc : list Edge.t) :
  (∀ e, e ∈ rawEdges → ∃ edge, toEdge e = Returns edge) →
  ∃ out,
    foldl (λ acc e, edges ← acc; pushEdge nodes edges e) (Returns acc) rawEdges
      = Returns out.
Proof.
  revert acc. induction rawEdges as [|e l IH]; intros acc Hrows; [by eexists|].
  cbn [foldl]. unfold pushEdge at 2. cbn [mbind completion_bind].
  destruct (Hrows e) as [edge ->]; [left|]. cbn [mbind completion_bind].
  destruct (_ && _); apply IH; intros e' He'; apply Hrows; by right.
Qed.

(** Everything after the traversals, in one statement: the nodes are the
    rows of the first traversal in order, and the edges are those built
    from the rows of the second whose two ends [nodeExists] finds. *)
Lemma extract_returns (rawNodes rawEdges : list (gmap string value)) :
  (∀ e, e ∈ rawEdges → ∃ edge, toEdge e = Returns edge) →
  ∃ edges,
    extract rawNodes rawEdges
      = Returns {| Result.nodes := toNode <$> rawNodes;
                   Result.edges := edges |}
    ∧ ∀ edge, edge ∈ edges ↔
        ∃ e, e ∈ rawEdges ∧ toEdge e = Returns edge
           ∧ nodeExists (toNode <$> rawNodes) (Edge.from edge) = true
           ∧ nodeExists (toNode <$> rawNodes) (Edge.to edge) = true.
Proof.
  intros Hrows.
  destruct (edge_loop_returns (toNode <$> rawNodes) rawEdges [] Hrows)
    as [edges Hloop].
  exists edges. split.
  { unfold extract. rewrite node_loop. cbn [app]. by rewrite Hloop. }
  intros edge. rewrite (edge_loop _ _ _ _ Hloop edge). split; [|by right].
  intros [Hnil|?]; [|done]. by apply elem_of_nil in Hnil.
Qed.



(** For string, number and boolean identifiers [===] is equality, so the
    test of the second loop is membership among the node ids. *)
Lemma nodeExists_primitive (nodes : list Node.t) (id : value) :
  primitive id →
  nodeExists nodes id = true ↔ id ∈ Node.id <$> nodes.
Proof.
  intros Hid. rewrite nodeExists_true, list_elem_of_fmap. split.
  - intros (n & Hn & Heq). exists n. split; [|done].
    symmetry. by apply strict_eq_sound.
  - intros (n & -> & Hn). exists n. split; [done|].
    by apply strict_eq_primitive.
Qed.

(** The first loop. *)
Lemma property_loop_skip (l : list (string * value))
    (acc : gmap string value) (p : string) :
  p ∉ l.*1 ∨ p = "id" ∨ p = "label" →
  foldl (λ properties kv,
           if negb (String.eqb kv.1 "id") && negb (String.eqb kv.1 "label") then
             match kv.2 with
             | VArr xs =>
                 if (length xs =? 1)%nat then <[kv.1 := index xs 0]> properties
                 else <[kv.1 := kv.2]> properties
             | _ => <[kv.1 := kv.2]> properties
             end
           else properties) acc l !! p = acc !! p.
Proof.
  revert acc. induction l as [|[k val] l IH]; intros acc Hp; [done|].
  cbn [foldl fst snd]. rewrite IH.
  2:{ destruct Hp as [Hp|Hp]; [|by right].
      rewrite fmap_cons, not_elem_of_cons in Hp. left. apply Hp. }
  destruct (negb (k =? "id")%string && negb (k =? "label")%string) eqn:Hk;
    [|done].
  apply andb_true_iff in Hk as [Hid Hlabel].
  apply negb_true_iff, String.eqb_neq in Hid, Hlabel.
  assert (k ≠ p) as Hne.
  { destruct Hp as [Hp|[->| ->]]; [|done..].
    rewrite fmap_cons, not_elem_of_cons in Hp. by destruct Hp. }
  destruct val as [| | | | |xs|]; try by rewrite lookup_insert_ne.
  destruct (length xs =? 1)%nat; by rewrite lookup_insert_ne.
Qed.

Lemma property_loop_store (l : list (string * value))
    (acc : gmap string value) (p : string) (val : value) :
  NoDup l.*1 → (p, val) ∈ l → p ≠ "id" → p ≠ "label" →
  foldl (λ properties kv,
           if negb (String.eqb kv.1 "id") && negb (String.eqb kv.1 "label") then
             match kv.2 with
             | VArr xs =>
                 if (length xs =? 1)%nat then <[kv.1 := index xs 0]> properties
                 else <[kv.1 := kv.2]> properties
             | _ => <[kv.1 := kv.2]> properties
             end
           else properties) acc l !! p = Some (stored val).
Proof.
  revert acc. induction l as [|[k v] l IH]; intros acc Hnd Hin Hid Hlabel.
  { by apply elem_of_nil in Hin. }
  rewrite fmap_cons in Hnd. apply NoDup_cons in Hnd as [Hk Hnd].
  apply elem_of_cons in Hin as [Heq|Hin]; [|by apply IH].
  injection Heq as <- <-. cbn [foldl fst snd].
  rewrite property_loop_skip by (by left).
  apply String.eqb_neq in Hid, Hlabel. rewrite Hid, Hlabel. simpl.
  destruct val as [| | | | |xs|]; try by rewrite lookup_insert_eq.
  simpl. destruct (length xs =? 1)%nat; by rewrite lookup_insert_eq.
Qed.

Lemma toNode_properties (n : gmap string value) (p : string) :
  Node.properties (toNode n) !! p =
    if bool_decide (p = "id" ∨ p = "label") then None
    else stored <$> n !! p.
Proof.
  unfold toNode, for_in. cbn [Node.properties].
  case_bool_decide as Hp.
  - by rewrite property_loop_skip by (by right).
  - destruct (n !! p) as [val|] eqn:Hnp; simpl.
    + apply property_loop_store.
      * apply NoDup_fst_map_to_list.
      * by apply elem_of_map_to_list.
      * intros ->. apply Hp. by left.
      * intros ->. apply Hp. by right.
    + rewrite property_loop_skip; [done|]. left.
      rewrite elem_of_keys_map_to_list, Hnp. by intros [].
Qed.

(** C8.  For a raw node row, a key other than ["id"] and ["label"] becomes
    a property of the node built from it: holding the sole element when
    the raw value is a one-element array, and the raw value itself when
    it is an array of any other length or not an array.  ["id"] and
    ["label"] are not properties. *)
Theorem search_node_property_unwrapped (n : gmap string value)
    (p : string) (val : value) :
  n !! p = Some val → p ≠ "id" → p ≠ "label" →
  (∀ x, val = VArr [x] → Node.properties (toNode n) !! p = Some x)
  ∧ (∀ xs, val = VArr xs → length xs ≠ 1%nat →
           Node.properties (toNode n) !! p = Some (VArr xs))
  ∧ (isArray val = false → Node.properties (toNode n) !! p = Some val)
  ∧ Node.properties (toNode n) !! "id" = None
  ∧ Node.properties (toNode n) !! "label" = None.
Proof.
  intros Hnp Hid Hlabel.
  assert (Node.properties (toNode n) !! p = Some (stored val)) as Hp.
  { rewrite toNode_properties, Hnp.
    rewrite bool_decide_eq_false_2; [done|]. by intros [?|?]. }
  repeat split.
  - intros x ->. exact Hp.
  - intros xs -> Hlen. rewrite Hp. simpl.
    apply Nat.eqb_neq in Hlen. by rewrite Hlen.
  - intros Harr. rewrite Hp. by destruct val.
  - rewrite toNode_properties. by rewrite bool_decide_eq_true_2 by (by left).
  - rewrite toNode_properties. by rewrite bool_decide_eq_true_2 by (by right).
Qed.

Lemma search_node_property_example :
  Sample.rawNode !! "name" = Some (VArr [VStr "Eric"])
  ∧ "name" ≠ "id" ∧ "name" ≠ "label"
  ∧ Node.properties (toNode Sample.rawNode) !! "name" = Some (VStr "Eric").
Proof.
  assert (Sample.rawNode !! "name" = Some (VArr [VStr "Eric"])) as Hn
    by (vm_compute; reflexivity).
  assert ("name" ≠ "id") as Hid by discriminate.
  assert ("name" ≠ "label") as Hlabel by discriminate.
  split; [exact Hn|]. split; [exact Hid|]. split; [exact Hlabel|].
  exact (proj1 (search_node_property_unwrapped Sample.rawNode "name" _
                  Hn Hid Hlabel)
           (VStr "Eric") eq_refl).
Defined.

(* ================================================================== *)
(** * query: the retry loop                                            *)
(* ================================================================== *)

Section Query.
Context {W A : Type}.
Variable sign : SignOptions → SignCredentials → gmap string value.
Variable f : Handle → W → W * completion A.

Lemma task_call (st : State W) (g : Handle) :
  task f (st, g) =
    ((set_world (f g (world st)).1 (emit (Invoke g) st), g),
     (f g (world st)).2).
Proof. unfold task. by destruct (f g (world st)). Qed.

Lemma errorFilter_conflict (r : receiver) (err : error)
    (s : State W * Handle) :
  startsWith (message err) "WebSocket is not open" = false →
  includes (message err) "ConcurrentModificationException"
  || includes (message err) "ReadOnlyViolationException" = true →
  errorFilter sign r err s = (s, Returns true).
Proof.
  intros Hsocket Hcontent. unfold errorFilter. destruct s as [st g].
  rewrite Hsocket.
  destruct (includes (message err) "ConcurrentModificationException");
    [done|].
  simpl in Hcontent. by rewrite Hcontent.
Qed.

Lemma errorFilter_unrecognised (r : receiver) (err : error)
    (s : State W * Handle) :
  startsWith (message err) "WebSocket is not open" = false →
  includes (message err) "ConcurrentModificationException" = false →
  includes (message err) "ReadOnlyViolationException" = false →
  errorFilter sign r err s = (s, Returns false).
Proof.
  intros Hsocket Hconflict Hreadonly. unfold errorFilter.
  destruct s as [st g]. by rewrite Hsocket, Hconflict, Hreadonly.
Qed.

(** Called on the retry options object, the reconnect branch stops at
    [this.connection.close()]. *)
Lemma errorFilter_socket_on_options (err : error) (s : State W * Handle) :
  startsWith (message err) "WebSocket is not open" = true →
  errorFilter sign OnRetryOptions err s =
    (s, Throws (TypeError
                  "Cannot read properties of undefined (reading 'close')")).
Proof.
  intros Hsocket. unfold errorFilter. destruct s as [st g].
  by rewrite Hsocket.
Qed.

(** Called on the [Connection] instance, the reconnect branch closes
    the current connection object, builds the next one and rebinds
    [g] to it. *)
Lemma errorFilter_socket_on_connection (err : error) (st : State W)
    (g : Handle) (c : DriverRemoteConnection) :
  startsWith (message err) "WebSocket is not open" = true →
  connection (this st) = Some c →
  useIam (this st) = false →
  ∃ st' c',
    errorFilter sign OnConnection err (st, g)
      = ((st', withRemote (Some c')), Returns true)
    ∧ connection (this st') = Some c'
    ∧ serial c' = S (built st)
    ∧ trace st' = trace st ++ [Close c; Open c']
    ∧ world st' = world st.
Proof.
  intros Hsocket Hc Hiam. unfold errorFilter, close_connection.
  rewrite Hsocket, Hc. unfold connect. cbn [this emit]. rewrite Hiam.
  cbn. eexists _, _. split; [reflexivity|]. cbn.
  split; [reflexivity|]. split; [reflexivity|].
  split; [|reflexivity]. by rewrite <-app_assoc.
Qed.

(** A query function that succeeds is called once. *)
Lemma query_success (st : State W) (a : A) :
  let g := withRemote (connection (this st)) in
  (f g (world st)).2 = Returns a →
  query sign f st =
    (set_world (f g (world st)).1 (emit (Invoke g) st), Resolved a).
Proof.
  intros g Hf. unfold query, retry. cbn [Nat.eqb Nat.pred retryAttempt].
  fold g. rewrite task_call, Hf. done.
Qed.

Lemma retryAttempt_exhausts (g : Handle) :
  (∀ g w, ∃ err,
      (f g w).2 = Throws err
      ∧ startsWith (message err) "WebSocket is not open" = false
      ∧ includes (message err) "ConcurrentModificationException"
        || includes (message err) "ReadOnlyViolationException" = true) →
  ∀ (n : nat) (st : State W), ∃ st' err,
    retryAttempt 1000 (errorFilter sign) setTimeout (task f) n (st, g)
      = ((st', g), Rejected err)
    ∧ (f g (worldAfter f g n (world st))).2 = Throws err
    ∧ world st' = worldAfter f g (S n) (world st)
    ∧ trace st' = trace st ++ attempts g n
    ∧ this st' = this st
    ∧ process_env st' = process_env st
    ∧ built st' = built st.
Proof.
  intros Hfail n. induction n as [|n IH]; intros st.
  - destruct (Hfail g (world st)) as (err & Hf & _).
    cbn [retryAttempt]. rewrite task_call, Hf.
    eexists _, err. split; [reflexivity|]. by repeat split.
  - destruct (Hfail g (world st)) as (err & Hf & Hsocket & Hcontent).
    cbn [retryAttempt]. rewrite task_call, Hf.
    rewrite (errorFilter_conflict _ _ _ Hsocket Hcontent).
    cbn [setTimeout].
    destruct (IH (emit (Wait 1000)
                    (set_world (f g (world st)).1 (emit (Invoke g) st))))
      as (st' & err' & -> & Herr' & Hworld & Htrace & Hthis & Henv & Hbuilt).
    exists st', err'. split; [reflexivity|].
    cbn in Herr', Hworld, Htrace, Hthis, Henv, Hbuilt.
    repeat split; try done.
    rewrite Htrace. cbn [attempts]. by rewrite <-!app_assoc.
Qed.
End Query.

(** C3 (amended).  A query function that fails on every call with an
    error whose message names a concurrent modification or a read-only
    violation (and does not begin with the socket message) is called
    exactly five times with a wait of 1000 ms between two calls; [query]
    then rejects with the error of the fifth call itself. *)
Theorem query_gives_up_after_five_attempts {W A : Type}
    (sign : SignOptions → SignCredentials → gmap string value)
    (f : Handle → W → W * completion A) (st : State W) :
  (∀ g w, ∃ err,
      (f g w).2 = Throws err
      ∧ startsWith (message err) "WebSocket is not open" = false
      ∧ includes (message err) "ConcurrentModificationException"
        || includes (message err) "ReadOnlyViolationException" = true) →
  let g := withRemote (connection (this st)) in
  ∃ st' err,
    query sign f st = (st', Rejected err)
    ∧ (f g (worldAfter f g 4 (world st))).2 = Throws err
    ∧ trace st' = trace st ++
        [Invoke g; Wait 1000; Invoke g; Wait 1000; Invoke g; Wait 1000;
         Invoke g; Wait 1000; Invoke g]
    ∧ world st' = worldAfter f g 5 (world st)
    ∧ this st' = this st.
Proof.
  intros Hfail g.
  destruct (retryAttempt_exhausts sign f g Hfail 4 st)
    as (st' & err & Hrun & Herr & Hworld & Htrace & Hthis & _).
  exists st', err. unfold query, retry. cbn [Nat.eqb Nat.pred]. fold g.
  rewrite Hrun. by repeat split.
Qed.

Lemma query_gives_up_example :
  ∃ st' err,
    query Sample.sign Sample.conflict (Sample.connected Sample.twoVertices)
      = (st', Rejected err)
    ∧ (Sample.conflict (withRemote (Some Sample.remote1))
         (worldAfter Sample.conflict (withRemote (Some Sample.remote1)) 4
            Sample.twoVertices)).2 = Throws err
    ∧ trace st' =
        [Invoke (withRemote (Some Sample.remote1)); Wait 1000;
         Invoke (withRemote (Some Sample.remote1)); Wait 1000;
         Invoke (withRemote (Some Sample.remote1)); Wait 1000;
         Invoke (withRemote (Some Sample.remote1)); Wait 1000;
         Invoke (withRemote (Some Sample.remote1))]
    ∧ world st' =
        worldAfter Sample.conflict (withRemote (Some Sample.remote1)) 5
          Sample.twoVertices
    ∧ this st' = this (Sample.connected Sample.twoVertices).
Proof.
  apply (query_gives_up_after_five_attempts Sample.sign Sample.conflict
           (Sample.connected Sample.twoVertices)).
  intros g w. eexists. split; [reflexivity|].
  split; vm_compute; reflexivity.
Defined.

(** C3 as written does not hold: the rejection is the error the query
    function raised, which is no [RetryExhausted] wrapper around it. *)
Lemma query_rejects_with_the_bare_cause :
  ¬ ∃ err,
      (query Sample.sign Sample.conflict
         (Sample.connected Sample.twoVertices)).2 = Rejected err
      ∧ wrapsAsRetryExhausted err
          (Error "ConcurrentModificationException: retry").
Proof.
  intros (err & Hrun & Hname & _).
  vm_compute in Hrun. injection Hrun as <-. discriminate Hname.
Qed.

(** C4.  When the first call of the query function fails with an error
    whose message matches none of the three tests of [errorFilter], the
    function is called that once, nothing else happens, and [query]
    rejects with that very error. *)
Theorem query_propagates_unrecognised_error {W A : Type}
    (sign : SignOptions → SignCredentials → gmap string value)
    (f : Handle → W → W * completion A) (st : State W) (err : error) :
  let g := withRemote (connection (this st)) in
  (f g (world st)).2 = Throws err →
  startsWith (message err) "WebSocket is not open" = false →
  includes (message err) "ConcurrentModificationException" = false →
  includes (message err) "ReadOnlyViolationException" = false →
  ∃ st',
    query sign f st = (st', Rejected err)
    ∧ trace st' = trace st ++ [Invoke g]
    ∧ world st' = (f g (world st)).1
    ∧ this st' = this st.
Proof.
  intros g Hf Hsocket Hconflict Hreadonly.
  unfold query, retry. cbn [Nat.eqb Nat.pred retryAttempt]. fold g.
  rewrite task_call, Hf.
  rewrite (errorFilter_unrecognised _ _ _ _ Hsocket Hconflict Hreadonly).
  eexists. split; [reflexivity|]. by repeat split.
Qed.

Lemma query_propagates_example :
  ∃ st',
    query Sample.sign Sample.unknown (Sample.connected Sample.twoVertices)
      = (st', Rejected (Error "Vertex with id already exists"))
    ∧ trace st' = [Invoke (withRemote (Some Sample.remote1))]
    ∧ world st' = Sample.twoVertices
    ∧ this st' = this (Sample.connected Sample.twoVertices).
Proof.
  apply (query_propagates_unrecognised_error Sample.sign Sample.unknown
           (Sample.connected Sample.twoVertices)
           (Error "Vertex with id already exists"));
    vm_compute; reflexivity.
Defined.

(** When the first call fails with the socket message, the exception
    raised inside [errorFilter] ends the run: one call, no [Close], no
    [Open], the [Connection] as it was. *)
Lemma query_socket_error_escapes {W A : Type}
    (sign : SignOptions → SignCredentials → gmap string value)
    (f : Handle → W → W * completion A) (st : State W) (err : error) :
  let g := withRemote (connection (this st)) in
  (f g (world st)).2 = Throws err →
  startsWith (message err) "WebSocket is not open" = true →
  ∃ st',
    query sign f st =
      (st', Uncaught (TypeError
                        "Cannot read properties of undefined (reading 'close')"))
    ∧ trace st' = trace st ++ [Invoke g]
    ∧ this st' = this st
    ∧ built st' = built st.
Proof.
  intros g Hf Hsocket.
  unfold query, retry. cbn [Nat.eqb Nat.pred retryAttempt]. fold g.
  rewrite task_call, Hf.
  rewrite (errorFilter_socket_on_options _ _ _ Hsocket).
  eexists. split; [reflexivity|]. by repeat split.
Qed.

(** C6 (the code departs from the claim).  The claim: on a failure whose
    message says the socket is not open, the executor closes and reopens
    the connection once, takes a traversal source bound to the new
    connection and goes on retrying with it.  [errorFilter] is a
    [function] expression that [async.retry] calls on its options object,
    so [this.connection] is [undefined] there and [close()] raises a
    [TypeError]: run on a connected instance with a query function that
    reports a closed socket, [query] calls the function once, neither
    closes nor opens anything and ends with that [TypeError] uncaught. *)
Theorem query_does_not_reconnect_on_socket_error :
  query Sample.sign Sample.socketClosed
    (Sample.connected Sample.twoVertices)
  = ({| this := this (Sample.connected Sample.twoVertices);
        world := Sample.twoVertices;
        process_env := ∅;
        built := 1;
        trace := [Invoke (withRemote (Some Sample.remote1))] |},
     Uncaught (TypeError
                 "Cannot read properties of undefined (reading 'close')")).
Proof. vm_compute. reflexivity. Qed.

(* ================================================================== *)
(** * deleteNode and deleteEdge                                        *)
(* ================================================================== *)

Lemma hasV_dropInE (id id' : string) (G : Graph) :
  hasV id' (dropInE id G) = hasV id' G.
Proof. unfold dropInE. by destruct (hasV id G). Qed.

Lemma hasV_dropOutE (id id' : string) (G : Graph) :
  hasV id' (dropOutE id G) = hasV id' G.
Proof. unfold dropOutE. by destruct (hasV id G). Qed.

(** Without the vertex the three traversals of [deleteNode] change
    nothing. *)
Lemma deleteNode_fn_absent (id : string) (g : Handle) (G : Graph) :
  hasV id G = false → (deleteNode_fn id g G).1 = G.
Proof.
  intros Hv. unfold deleteNode_fn. cbn [fst].
  assert (dropInE id G = G) as -> by (unfold dropInE; by rewrite Hv).
  assert (dropOutE id G = G) as -> by (unfold dropOutE; by rewrite Hv).
  unfold dropV. by rewrite Hv.
Qed.

(** After them the vertex is gone. *)
Lemma deleteNode_fn_gone (id : string) (g : Handle) (G : Graph) :
  hasV id (deleteNode_fn id g G).1 = false.
Proof.
  unfold deleteNode_fn. cbn [fst]. unfold dropV.
  rewrite hasV_dropOutE, hasV_dropInE.
  destruct (hasV id G) eqn:Hv.
  - unfold hasV. cbn. apply bool_decide_eq_false_2.
    rewrite lookup_delete_eq. by intros [].
  - by rewrite hasV_dropOutE, hasV_dropInE.
Qed.

Lemma deleteNode_fn_idempotent (id : string) (g : Handle) (G : Graph) :
  (deleteNode_fn id g (deleteNode_fn id g G).1).1 = (deleteNode_fn id g G).1.
Proof. apply deleteNode_fn_absent, deleteNode_fn_gone. Qed.

Lemma deleteEdge_fn_idempotent (id : string) (g : Handle) (G : Graph) :
  (deleteEdge_fn id g (deleteEdge_fn id g G).1).1 = (deleteEdge_fn id g G).1.
Proof.
  unfold deleteEdge_fn, dropE. cbn. apply Graph_eq; cbn; [done|].
  apply delete_id, lookup_delete_eq.
Qed.

(** C9.  Whatever the graph holds, [deleteNode(id)] and [deleteEdge(id)]
    resolve (also when nothing has that id), and a second call right
    after the first resolves too and leaves the graph as the first call
    left it. *)
Theorem delete_resolves_and_is_idempotent
    (sign : SignOptions → SignCredentials → gmap string value)
    (id : string) (st : State Graph) :
  (∃ st1 st2,
      deleteNode sign id st = (st1, Resolved VUndefined)
      ∧ deleteNode sign id st1 = (st2, Resolved VUndefined)
      ∧ world st2 = world st1)
  ∧ (∃ st1 st2,
      deleteEdge sign id st = (st1, Resolved VUndefined)
      ∧ deleteEdge sign id st1 = (st2, Resolved VUndefined)
      ∧ world st2 = world st1).
Proof.
  split.
  - unfold deleteNode. eexists _, _.
    split; [by apply (query_success sign (deleteNode_fn id))|].
    split; [by apply (query_success sign (deleteNode_fn id))|].
    cbn [world set_world emit this]. apply deleteNode_fn_idempotent.
  - unfold deleteEdge. eexists _, _.
    split; [by apply (query_success sign (deleteEdge_fn id))|].
    split; [by apply (query_success sign (deleteEdge_fn id))|].
    cbn [world set_world emit this]. apply deleteEdge_fn_idempotent.
Qed.

Lemma deleteEdge_fn_absent (id : string) (g : Handle) (G : Graph) :
  edges G !! id = None → (deleteEdge_fn id g G).1 = G.
Proof.
  intros He. unfold deleteEdge_fn, dropE. cbn.
  apply Graph_eq; cbn; [done|]. by apply delete_id.
Qed.

(* ================================================================== *)
(** * saveEdge                                                         *)
(* ================================================================== *)

(** A new edge between two existing vertices: it is stored leaving
    [edge.to] and entering [edge.from], with the label and exactly the
    properties given. *)
Lemma saveEdge_fn_new (edge : EdgeModel) (g : Handle) (G : Graph) :
  hasE (edge_id edge) G = false →
  hasV (edge_to edge) G = true →
  hasV (edge_from edge) G = true →
  edges (saveEdge_fn edge g G).1 !! edge_id edge =
    Some {| e_label := edge_label edge;
            e_outV := edge_to edge;
            e_inV := edge_from edge;
            e_props := edge_properties edge |}.
Proof.
  intros Hnew Hto Hfrom. unfold saveEdge_fn. rewrite Hnew. cbn [fst].
  unfold addE_from. rewrite Hto, Hfrom. cbn [andb].
  rewrite (updateProperties_exact_edge _ _ _
             {| e_label := edge_label edge; e_outV := edge_to edge;
                e_inV := edge_from edge; e_props := ∅ |}).
  - reflexivity.
  - cbn. apply lookup_insert_eq.
  - cbn. intros k [x Hx]. by rewrite lookup_empty in Hx.
Qed.

(** Without one of the two vertices no edge is created. *)
Lemma saveEdge_fn_dangling (edge : EdgeModel) (g : Handle) (G : Graph) :
  hasE (edge_id edge) G = false →
  hasV (edge_to edge) G && hasV (edge_from edge) G = false →
  (saveEdge_fn edge g G).1 = G.
Proof.
  intros Hnew Hends. unfold saveEdge_fn. rewrite Hnew. cbn [fst].
  unfold addE_from. rewrite Hends.
  apply updateProperties_missing.
  unfold hasE in Hnew. apply bool_decide_eq_false in Hnew.
  by apply eq_None_not_Some.
Qed.

(** C5 (the code departs from the claim).  The claim: for an edge whose
    id is not found, [saveEdge] creates an edge with that id and label
    directed from [edge.from] to [edge.to], then reconciles its
    properties.  The traversal names the vertex [edge.to] ["a"], moves to
    [edge.from] and adds the edge with [from_("a")]: the edge stored for
    [{id: "e1", label: "owns", from: "v1", to: "v2"}] leaves ["v2"] and
    enters ["v1"].  Id, label and properties are as claimed. *)
Theorem saveEdge_stores_the_edge_reversed :
  ∃ st',
    saveEdge Sample.sign Sample.owns (Sample.connected Sample.twoVertices)
      = (st', Resolved VUndefined)
    ∧ edges (world st') !! "e1" =
        Some {| e_label := "owns";
                e_outV := "v2";
                e_inV := "v1";
                e_props := {[ "since" := VNum 2020 ]} |}
    ∧ vertices (world st') = vertices Sample.twoVertices.
Proof.
  eexists. split; [vm_compute; reflexivity|].
  split; vm_compute; reflexivity.
Qed.

(** [search] reads the row of that edge with ["IN"] as [from] and ["OUT"]
    as [to], and so reports it with the ends it was saved with. *)
Lemma search_reports_the_saved_ends :
  ∃ st' st'' out,
    saveEdge Sample.sign Sample.owns (Sample.connected Sample.twoVertices)
      = (st', Resolved VUndefined)
    ∧ search Sample.sign Sample.noFocus {| focus := None |} st'
      = (st'', Resolved out)
    ∧ Result.edges out = [Sample.builtEdge].
Proof.
  eexists _, _, _. split; [vm_compute; reflexivity|].
  split; vm_compute; reflexivity.
Qed.

(* ================================================================== *)
(** * The close listener                                               *)
(* ================================================================== *)







(* ================================================================== *)
(** * getHeaders                                                       *)
(* ================================================================== *)

Lemma truthy_or_else (a b : value) :
  truthy (or_else a b) = truthy a || truthy b.
Proof. unfold or_else. by destruct (truthy a) eqn:Ha. Qed.

Lemma or_else_try_returns (a b : value) :
  or_else_try (Returns a) (Returns b) = Returns (or_else a b).
Proof. unfold or_else_try, or_else. cbn. by destruct (truthy a). Qed.

Lemma truthy_resolved (credentials : gmap string value)
    (env : gmap string string) (key1 key2 envName : string) :
  truthy (or_else (or_else (get credentials key1) (get credentials key2))
                  (env_get env envName))
  = available credentials env key1 key2 envName.
Proof. unfold available. by rewrite !truthy_or_else. Qed.

(** With host and port present, every member read of [getHeaders] on an
    object returns, and the function comes down to its two tests on the
    resolved keys. *)
Lemma getHeaders_object
    (sign : SignOptions → SignCredentials → gmap string value)
    (env : gmap string string) (host port : value)
    (credentials : gmap string value) (canonicalUri : value) :
  truthy host = true → truthy port = true →
  getHeaders sign env host port (VObj credentials) canonicalUri =
    let accessKeyId :=
      or_else (or_else (get credentials "accessKey")
                       (get credentials "accessKeyId"))
              (env_get env "AWS_ACCESS_KEY_ID") in
    let secretAccessKey :=
      or_else (or_else (get credentials "secretKey")
                       (get credentials "secretAccessKey"))
              (env_get env "AWS_SECRET_ACCESS_KEY") in
    if negb (truthy accessKeyId) || negb (truthy secretAccessKey) then
      Throws (Error "Access key and secret key are required")
    else
      Returns
        (sign {| so_host := to_string host +:+ ":" +:+ to_string port;
                 so_region := or_else (get credentials "region")
                                      (env_get env "AWS_DEFAULT_REGION");
                 so_path := canonicalUri;
                 so_service := "neptune-db" |}
              {| accessKeyId := accessKeyId;
                 secretAccessKey := secretAccessKey;
                 sessionToken := or_else (get credentials "sessionToken")
                                         (env_get env "AWS_SESSION_TOKEN") |}).
Proof.
  intros Hhost Hport. unfold getHeaders. rewrite Hhost, Hport.
  cbn [negb orb member]. rewrite !or_else_try_returns. reflexivity.
Qed.

(** Left out, or passed as [null], the credentials argument makes
    [getHeaders] fail on its first member read, whatever the environment
    holds: the argument the documentation calls optional is read without
    a test. *)
Lemma getHeaders_without_credentials
    (sign : SignOptions → SignCredentials → gmap string value)
    (env : gmap string string) (host port credentials canonicalUri : value) :
  truthy host = true → truthy port = true →
  credentials = VUndefined ∨ credentials = VNull →
  ∃ e, getHeaders sign env host port credentials canonicalUri = Throws e
       ∧ name e = "TypeError".
Proof.
  intros Hhost Hport Hnone. unfold getHeaders. rewrite Hhost, Hport.
  destruct Hnone as [-> | ->]; eexists; (split; [reflexivity|reflexivity]).
Qed.

(** C10 as written does not hold: with the access key passed in the
    argument and the secret key set in the environment, neither source
    yields both keys, and [getHeaders] returns headers all the same. *)
Lemma getHeaders_takes_each_key_where_it_finds_it :
  ¬ (getHeaders Sample.sign Sample.env (VStr "db.example") (VNum 8182)
       (VObj Sample.credentials) (VStr "/gremlin")
     = Throws (Error "Access key and secret key are required")
     ↔ argumentYieldsBoth Sample.credentials = false
       ∧ environmentYieldsBoth Sample.env = false).
Proof.
  intros [_ Hthrows].
  assert (argumentYieldsBoth Sample.credentials = false
          ∧ environmentYieldsBoth Sample.env = false) as Hneither
    by (split; vm_compute; reflexivity).
  specialize (Hthrows Hneither). vm_compute in Hthrows. discriminate Hthrows.
Qed.

(** C10 (amended).  [getHeaders] throws "Host and port are required"
    whenever host or port is falsy, whatever is passed as credentials.
    With both present and an object as credentials it throws "Access key
    and secret key are required" exactly when the access key id or the
    secret access key is found neither in the argument, under either of
    its two names, nor in the environment, each key being looked up on
    its own; it returns headers otherwise, so session token and region
    play no part in either test. *)
Theorem getHeaders_failures
    (sign : SignOptions → SignCredentials → gmap string value)
    (env : gmap string string) (host port : value)
    (credentials : gmap string value) (canonicalUri : value) :
  (truthy host = false ∨ truthy port = false →
     ∀ passed : value,
       getHeaders sign env host port passed canonicalUri
         = Throws (Error "Host and port are required"))
  ∧ (truthy host = true → truthy port = true →
     (getHeaders sign env host port (VObj credentials) canonicalUri
        = Throws (Error "Access key and secret key are required")
      ↔ available credentials env "accessKey" "accessKeyId" "AWS_ACCESS_KEY_ID"
        && available credentials env "secretKey" "secretAccessKey"
             "AWS_SECRET_ACCESS_KEY" = false)
     ∧ (available credentials env "accessKey" "accessKeyId" "AWS_ACCESS_KEY_ID"
        && available credentials env "secretKey" "secretAccessKey"
             "AWS_SECRET_ACCESS_KEY" = true →
        ∃ headers,
          getHeaders sign env host port (VObj credentials) canonicalUri
            = Returns headers)).
Proof.
  split.
  - intros Hmissing passed. unfold getHeaders.
    by destruct Hmissing as [-> | ->]; rewrite ?orb_true_r.
  - intros Hhost Hport. rewrite getHeaders_object by done.
    cbn zeta. rewrite !truthy_resolved.
    destruct (available credentials env "accessKey" _ _);
      destruct (available credentials env "secretKey" _ _);
      cbn [negb orb andb]; split; try done; eauto.
Qed.

Lemma getHeaders_example :
  truthy (VStr "db.example") = true ∧ truthy (VNum 8182) = true
  ∧ available Sample.credentials Sample.env
      "accessKey" "accessKeyId" "AWS_ACCESS_KEY_ID"
    && available Sample.credentials Sample.env
         "secretKey" "secretAccessKey" "AWS_SECRET_ACCESS_KEY" = true
  ∧ ∃ headers,
      getHeaders Sample.sign Sample.env (VStr "db.example") (VNum 8182)
        (VObj Sample.credentials) (VStr "/gremlin") = Returns headers.
Proof.
  assert (truthy (VStr "db.example") = true) as Hhost by reflexivity.
  assert (truthy (VNum 8182) = true) as Hport by reflexivity.
  assert (available Sample.credentials Sample.env
            "accessKey" "accessKeyId" "AWS_ACCESS_KEY_ID"
          && available Sample.credentials Sample.env
               "secretKey" "secretAccessKey" "AWS_SECRET_ACCESS_KEY" = true)
    as Hkeys by (vm_compute; reflexivity).
  split; [exact Hhost|]. split; [exact Hport|]. split; [exact Hkeys|].
  exact (proj2 (proj2 (getHeaders_failures Sample.sign Sample.env
                         (VStr "db.example") (VNum 8182) Sample.credentials
                         (VStr "/gremlin")) Hhost Hport) Hkeys).
Defined.

(* ================================================================== *)
(** * search on the graph engine                                       *)
(* ================================================================== *)

Lemma elementMap_ends (G : Graph) (id : string) (e : Edge) :
  ∃ oIn oOut,
    elementMap G id e !! "IN" = Some (VObj oIn)
    ∧ oIn !! "id" = Some (VStr (e_inV e))
    ∧ elementMap G id e !! "OUT" = Some (VObj oOut)
    ∧ oOut !! "id" = Some (VStr (e_outV e)).
Proof.
  unfold elementMap. eexists _, _. split; [|split; [|split]].
  - rewrite !lookup_insert_ne by done. apply lookup_insert_eq.
  - apply lookup_insert_eq.
  - rewrite !lookup_insert_ne by done. apply lookup_insert_eq.
  - apply lookup_insert_eq.
Qed.

(** Every row of [g.E().elementMap()] builds an edge; its [from] is the
    vertex the stored edge enters and its [to] the vertex it leaves. *)
Lemma toEdge_elementMap (G : Graph) (id : string) (e : Edge) :
  ∃ edge,
    toEdge (elementMap G id e) = Returns edge
    ∧ Edge.from edge = VStr (e_inV e)
    ∧ Edge.to edge = VStr (e_outV e).
Proof.
  destruct (elementMap_ends G id e) as (oIn & oOut & HIn & HinId & HOut & HoutId).
  destruct (toEdge_returns (elementMap G id e)) as [edge Hedge].
  { intros v. rewrite HIn. by intros [= <-]. }
  { intros v. rewrite HOut. by intros [= <-]. }
  exists edge. split; [done|].
  destruct (toEdge_fields _ _ Hedge) as (_ & _ & Hfrom & Hto & _).
  rewrite HIn in Hfrom. rewrite HOut in Hto. cbn in Hfrom, Hto.
  unfold get in Hfrom, Hto. rewrite HinId in Hfrom. rewrite HoutId in Hto.
  cbn in Hfrom, Hto. split; congruence.
Qed.

(** [search] on any graph, with or without focus: it resolves, leaves the
    graph alone, and an edge row is in the result exactly when the ids of
    both of its ends are among the ids of the nodes in the result. *)
Lemma search_resolves_with_closed_edges
    (sign : SignOptions → SignCredentials → gmap string value)
    (focusRows : Focus → Graph → list (gmap string value))
    (options : Options) (st : State Graph) :
  ∃ st' out,
    search sign focusRows options st = (st', Resolved out)
    ∧ world st' = world st
    ∧ ∀ e, e ∈ E_elementMap (world st) →
        ∃ edge,
          toEdge e = Returns edge
          ∧ (edge ∈ Result.edges out ↔
               Edge.from edge ∈ Node.id <$> Result.nodes out
               ∧ Edge.to edge ∈ Node.id <$> Result.nodes out).
Proof.
  set (rawNodes := match focus options with
                   | Some f => focusRows f (world st)
                   | None => V_valueMapTrue (world st)
                   end).
  assert (∀ e, e ∈ E_elementMap (world st) →
               ∃ edge, toEdge e = Returns edge
                     ∧ primitive (Edge.from edge) ∧ primitive (Edge.to edge))
    as Hrows.
  { intros e He. unfold E_elementMap in He.
    apply list_elem_of_fmap in He as ([id ed] & -> & _). cbn [fst snd].
    destruct (toEdge_elementMap (world st) id ed) as (edge & ? & Hf & Ht).
    exists edge. rewrite Hf, Ht. by repeat split. }
  destruct (extract_returns rawNodes (E_elementMap (world st)))
    as (edges & Hout & Hkept).
  { intros e He. destruct (Hrows e He) as (edge & ? & _). by exists edge. }
  eexists _, _. split.
  { unfold search. apply (query_success sign (search_fn focusRows options)).
    cbn. exact Hout. }
  split; [done|]. intros e He.
  destruct (Hrows e He) as (edge & Hedge & Hfrom & Hto).
  exists edge. split; [done|]. cbn [Result.nodes Result.edges].
  rewrite Hkept, <-!nodeExists_primitive by done. split.
  - by intros (_ & _ & _ & ? & ?).
  - intros [? ?]. by exists e.
Qed.

(* ================================================================== *)
(** * updateProperties: further properties                             *)
(* ================================================================== *)

Lemma Vertex_eq (v1 v2 : Vertex) :
  v_label v1 = v_label v2 → v_props v1 = v_props v2 → v1 = v2.
Proof. destruct v1, v2; simpl; congruence. Qed.

Lemma Edge_eq (e1 e2 : Edge) :
  e_label e1 = e_label e2 → e_outV e1 = e_outV e2 → e_inV e1 = e_inV e2 →
  e_props e1 = e_props e2 → e1 = e2.
Proof. destruct e1, e2; simpl; congruence. Qed.

(** Whatever the graph holds, [updateProperties] only rewrites the
    property map of the one element. *)
Lemma updateProperties_alter (id : string) (props : gmap string value)
    (isNode : bool) (G : Graph) :
  if isNode then
    ∃ F, updateProperties id props true G
         = with_vertices (alter (with_v_props F) id) G
  else
    ∃ F, updateProperties id props false G
         = with_edges (alter (with_e_props F) id) G.
Proof.
  destruct isNode; unfold updateProperties, for_in.
  - rewrite (drop_loop_vertex id props), (set_loop_vertex id).
    eexists (λ m, setAll _ _ (dropMissing props _ m)).
    apply Graph_eq; simpl; [|done].
    rewrite alter_alter_eq. by apply alter_ext.
  - rewrite (drop_loop_edge id props), (set_loop_edge id).
    eexists (λ m, setAll _ _ (dropMissing props _ m)).
    apply Graph_eq; simpl; [done|].
    rewrite alter_alter_eq. by apply alter_ext.
Qed.

Lemma hasV_updateProperties (id j : string) (props : gmap string value)
    (isNode : bool) (G : Graph) :
  hasV j (updateProperties id props isNode G) = hasV j G.
Proof.
  pose proof (updateProperties_alter id props isNode G) as Halter.
  destruct isNode; destruct Halter as [F ->]; unfold hasV; simpl; [|done].
  apply bool_decide_ext. by rewrite lookup_alter_is_Some.
Qed.

Lemma hasE_updateProperties (id j : string) (props : gmap string value)
    (isNode : bool) (G : Graph) :
  hasE j (updateProperties id props isNode G) = hasE j G.
Proof.
  pose proof (updateProperties_alter id props isNode G) as Halter.
  destruct isNode; destruct Halter as [F ->]; unfold hasE; simpl; [done|].
  apply bool_decide_ext. by rewrite lookup_alter_is_Some.
Qed.

(** X1.  When none of the current keys that are absent from [props] is a
    member name of [Object.prototype], [updateProperties] leaves the
    element with exactly the properties of [props]: one value per key on
    a vertex, the bare value on an edge.  The label and the ends are
    kept. *)
Theorem updateProperties_reconciles_plain_keys (id : string)
    (props : gmap string value) (G : Graph) :
  (∀ v, vertices G !! id = Some v →
        (∀ k, is_Some (v_props v !! k) → props !! k = None →
              k ∉ Object_prototype) →
        vertices (updateProperties id props true G) !! id =
          Some {| v_label := v_label v; v_props := (λ x, [x]) <$> props |})
  ∧ (∀ e, edges G !! id = Some e →
        (∀ k, is_Some (e_props e !! k) → props !! k = None →
              k ∉ Object_prototype) →
        edges (updateProperties id props false G) !! id =
          Some {| e_label := e_label e; e_outV := e_outV e;
                  e_inV := e_inV e; e_props := props |}).
Proof.
  split.
  - intros v Hv Hplain. by apply updateProperties_exact_vertex.
  - intros e He Hplain. by apply updateProperties_exact_edge.
Qed.

Lemma updateProperties_reconciles_example :
  vertices Sample2.graph !! "v1"
    = Some {| v_label := "person";
              v_props := {[ "name" := [VStr "Eric"];
                            "age" := [VNum 40; VNum 41] ]} |}
  ∧ vertices (updateProperties "v1" Sample2.desired true Sample2.graph) !! "v1"
    = Some {| v_label := "person";
              v_props := (λ x, [x]) <$> Sample2.desired |}.
Proof.
  assert (vertices Sample2.graph !! "v1"
    = Some {| v_label := "person";
              v_props := {[ "name" := [VStr "Eric"];
                            "age" := [VNum 40; VNum 41] ]} |}) as Hv
    by (vm_compute; reflexivity).
  split; [exact Hv|].
  apply (proj1 (updateProperties_reconciles_plain_keys "v1" Sample2.desired
                  Sample2.graph) _ Hv).
  intros k Hk _. cbn [v_props] in Hk.
  assert (k = "name" ∨ k = "age") as [-> | ->].
  { destruct (decide (k = "name")) as [|Hname]; [by left|].
    destruct (decide (k = "age")) as [|Hage]; [by right|].
    rewrite lookup_insert_ne, lookup_singleton_ne in Hk by done.
    by destruct Hk. }
  all: intros Hin; apply list_elem_of_In in Hin; simpl in Hin;
    intuition discriminate.
Defined.

(** X2.  [updateProperties] changes nothing but the property map of the
    element named: it adds and removes no vertex and no edge, keeps every
    label and both ends of every edge, and leaves every other element as
    it was. *)
Theorem updateProperties_touches_one_property_map (id : string)
    (props : gmap string value) (isNode : bool) (G : Graph) :
  (∀ j, vertexShape <$> vertices (updateProperties id props isNode G) !! j
        = vertexShape <$> vertices G !! j)
  ∧ (∀ j, edgeShape <$> edges (updateProperties id props isNode G) !! j
          = edgeShape <$> edges G !! j)
  ∧ (∀ j, j ≠ id →
          vertices (updateProperties id props isNode G) !! j = vertices G !! j
          ∧ edges (updateProperties id props isNode G) !! j = edges G !! j)
  ∧ (if isNode then edges (updateProperties id props isNode G) = edges G
     else vertices (updateProperties id props isNode G) = vertices G).
Proof.
  pose proof (updateProperties_alter id props isNode G) as Halter.
  destruct isNode; destruct Halter as [F ->]; simpl.
  - split; [|split; [done|split; [|done]]].
    + intros j. rewrite lookup_alter. case_decide; [|done]. subst j.
      by destruct (vertices G !! id).
    + intros j Hj. by rewrite lookup_alter_ne.
  - split; [done|split; [|split; [|done]]].
    + intros j. rewrite lookup_alter. case_decide; [|done]. subst j.
      by destruct (edges G !! id).
    + intros j Hj. by rewrite lookup_alter_ne.
Qed.

Lemma updateProperties_twice (id : string)
    (props : gmap string value) (isNode : bool) (G : Graph) :
  updateProperties id props isNode (updateProperties id props isNode G)
  = updateProperties id props isNode G.
Proof.
  destruct isNode.
  - destruct (vertices G !! id) as [v|] eqn:Hv.
    2:{ by rewrite !(updateProperties_missing id props true G). }
    destruct (updateProperties_vertex id props G v Hv)
      as (v1 & Hv1 & Hl1 & Hp1 & Hframe1 & He1).
    destruct (updateProperties_vertex id props _ v1 Hv1)
      as (v2 & Hv2 & Hl2 & Hp2 & Hframe2 & He2).
    apply Graph_eq; [|by rewrite He2].
    apply map_eq. intros j. destruct (decide (j = id)) as [->|Hj].
    + rewrite Hv2, Hv1. f_equal. apply Vertex_eq; [done|].
      apply map_eq. intros k. rewrite Hp2, Hp1.
      destruct (props !! k); [done|]. by destruct (has_in k props).
    + by rewrite Hframe2.
  - destruct (edges G !! id) as [e|] eqn:He.
    2:{ by rewrite !(updateProperties_missing id props false G). }
    destruct (updateProperties_edge id props G e He)
      as (e1 & He1 & Hl1 & Ho1 & Hi1 & Hp1 & Hframe1 & Hv1).
    destruct (updateProperties_edge id props _ e1 He1)
      as (e2 & He2 & Hl2 & Ho2 & Hi2 & Hp2 & Hframe2 & Hv2).
    apply Graph_eq; [by rewrite Hv2|].
    apply map_eq. intros j. destruct (decide (j = id)) as [->|Hj].
    + rewrite He2, He1. f_equal. apply Edge_eq; [done..|].
      apply map_eq. intros k. rewrite Hp2, Hp1.
      destruct (props !! k); [done|]. by destruct (has_in k props).
    + by rewrite Hframe2.
Qed.

(** X3.  [updateProperties] is idempotent: a second run with the same
    arguments changes nothing, whatever the element held before the
    first. *)
Theorem updateProperties_idempotent (id : string)
    (props : gmap string value) (isNode : bool) (G : Graph) :
  updateProperties id props isNode (updateProperties id props isNode G)
  = updateProperties id props isNode G.
Proof. apply updateProperties_twice. Qed.

(* ================================================================== *)
(** * saveNode, saveEdge, deleteNode, deleteEdge: further properties   *)
(* ================================================================== *)

(** A method whose query function returns is one call of that function
    on the graph. *)
Lemma method_world {A : Type}
    (sign : SignOptions → SignCredentials → gmap string value)
    (f : Handle → Graph → Graph * completion A) (a : A) (st : State Graph) :
  (∀ g G, (f g G).2 = Returns a) →
  query sign f st
  = (set_world (f (withRemote (connection (this st))) (world st)).1
       (emit (Invoke (withRemote (connection (this st)))) st),
     Resolved a).
Proof. intros Hf. by apply query_success. Qed.

Lemma saveNode_fn_returns (node : NodeModel) (g : Handle) (G : Graph) :
  (saveNode_fn node g G).2 = Returns VUndefined.
Proof. unfold saveNode_fn. by destruct (hasV _ _). Qed.

Lemma saveEdge_fn_returns (edge : EdgeModel) (g : Handle) (G : Graph) :
  (saveEdge_fn edge g G).2 = Returns VUndefined.
Proof. unfold saveEdge_fn. by destruct (hasE _ _). Qed.

Lemma hasV_lookup (id : string) (G : Graph) :
  hasV id G = true ↔ is_Some (vertices G !! id).
Proof. unfold hasV. apply bool_decide_eq_true. Qed.

Lemma hasV_false (id : string) (G : Graph) :
  hasV id G = false ↔ vertices G !! id = None.
Proof.
  unfold hasV. rewrite bool_decide_eq_false. by rewrite eq_None_not_Some.
Qed.

Lemma hasE_lookup (id : string) (G : Graph) :
  hasE id G = true ↔ is_Some (edges G !! id).
Proof. unfold hasE. apply bool_decide_eq_true. Qed.

Lemma hasE_false (id : string) (G : Graph) :
  hasE id G = false ↔ edges G !! id = None.
Proof.
  unfold hasE. rewrite bool_decide_eq_false. by rewrite eq_None_not_Some.
Qed.

(** The graph after [saveNode] of a vertex that was not there. *)
Lemma saveNode_fn_new (node : NodeModel) (g : Handle) (G : Graph) :
  hasV (node_id node) G = false →
  vertices (saveNode_fn node g G).1 =
    <[node_id node :=
        {| v_label := join "::" (node_labels node);
           v_props := (λ x, [x]) <$> node_properties node |}]> (vertices G)
  ∧ edges (saveNode_fn node g G).1 = edges G.
Proof.
  intros Hnew. unfold saveNode_fn. rewrite Hnew. cbn [fst].
  set (v0 := {| v_label := join "::" (node_labels node); v_props := ∅ |}).
  assert (vertices (addV (join "::" (node_labels node)) (node_id node) G)
            !! node_id node = Some v0) as Hv0 by apply lookup_insert_eq.
  destruct (updateProperties_vertex _ (node_properties node) _ _ Hv0)
    as (v1 & Hv1 & _ & _ & Hframe & Hedges).
  split; [|by rewrite Hedges].
  apply map_eq. intros j. destruct (decide (j = node_id node)) as [->|Hj].
  - rewrite (updateProperties_exact_vertex _ _ _ v0 Hv0).
    + by rewrite lookup_insert_eq.
    + cbn. intros k [x Hx]. by rewrite lookup_empty in Hx.
  - rewrite (Hframe j Hj). cbn. by rewrite !lookup_insert_ne.
Qed.

(** X4.  [saveNode] of a node whose id no vertex has creates that one
    vertex: its label is the labels joined by ["::"], its properties are
    those given, one value each; the other vertices and all edges stay
    as they were. *)
Theorem saveNode_creates_the_vertex
    (sign : SignOptions → SignCredentials → gmap string value)
    (node : NodeModel) (st : State Graph) :
  hasV (node_id node) (world st) = false →
  ∃ st',
    saveNode sign node st = (st', Resolved VUndefined)
    ∧ vertices (world st') =
        <[node_id node :=
            {| v_label := join "::" (node_labels node);
               v_props := (λ x, [x]) <$> node_properties node |}]>
          (vertices (world st))
    ∧ edges (world st') = edges (world st).
Proof.
  intros Hnew. unfold saveNode.
  rewrite (method_world sign (saveNode_fn node) VUndefined)
    by apply saveNode_fn_returns.
  eexists. split; [reflexivity|]. cbn [world set_world emit].
  by apply saveNode_fn_new.
Qed.

Lemma saveNode_creates_example :
  hasV "v3" Sample2.graph = false
  ∧ ∃ st',
      saveNode Sample.sign Sample2.newcomer (Sample.connected Sample2.graph)
        = (st', Resolved VUndefined)
      ∧ vertices (world st') =
          <["v3" := {| v_label := "person::guest";
                       v_props := (λ x, [x]) <$> Sample2.desired |}]>
            (vertices Sample2.graph)
      ∧ edges (world st') = edges Sample2.graph.
Proof.
  assert (hasV "v3" Sample2.graph = false) as Hnew by (vm_compute; reflexivity).
  split; [exact Hnew|].
  exact (saveNode_creates_the_vertex Sample.sign Sample2.newcomer
           (Sample.connected Sample2.graph) Hnew).
Defined.

(** X5.  [saveNode] of a node whose id a vertex already has never
    relabels it, whatever [labels] says: the vertex keeps its label, every
    property given holds the one value given, and nothing else in the
    graph changes. *)
Theorem saveNode_keeps_the_label
    (sign : SignOptions → SignCredentials → gmap string value)
    (node : NodeModel) (st : State Graph) (v : Vertex) :
  vertices (world st) !! node_id node = Some v →
  ∃ st' v',
    saveNode sign node st = (st', Resolved VUndefined)
    ∧ vertices (world st') !! node_id node = Some v'
    ∧ v_label v' = v_label v
    ∧ (∀ k x, node_properties node !! k = Some x → v_props v' !! k = Some [x])
    ∧ (∀ k, v_props v' !! k ≠ None →
            node_properties node !! k ≠ None ∨ v_props v !! k ≠ None)
    ∧ (∀ j, j ≠ node_id node →
            vertices (world st') !! j = vertices (world st) !! j)
    ∧ edges (world st') = edges (world st).
Proof.
  intros Hv. unfold saveNode.
  rewrite (method_world sign (saveNode_fn node) VUndefined)
    by apply saveNode_fn_returns.
  unfold saveNode_fn.
  rewrite (proj2 (hasV_lookup _ _)) by (rewrite Hv; eauto).
  cbn [world set_world emit fst].
  destruct (updateProperties_vertex _ (node_properties node) _ _ Hv)
    as (v' & Hv' & Hlabel & Hprops & Hframe & Hedges).
  eexists _, v'. split; [reflexivity|]. cbn [world].
  repeat split; try done.
  - intros k x Hk. by rewrite Hprops, Hk.
  - intros k Hk. rewrite Hprops in Hk.
    destruct (node_properties node !! k); [by left|].
    right. by destruct (has_in k (node_properties node)).
Qed.

Lemma saveNode_keeps_the_label_example :
  vertices Sample2.graph !! "v1"
    = Some {| v_label := "person";
              v_props := {[ "name" := [VStr "Eric"];
                            "age" := [VNum 40; VNum 41] ]} |}
  ∧ ∃ st' v',
      saveNode Sample.sign Sample2.erik (Sample.connected Sample2.graph)
        = (st', Resolved VUndefined)
      ∧ vertices (world st') !! "v1" = Some v'
      ∧ v_label v' = "person".
Proof.
  assert (vertices Sample2.graph !! "v1"
    = Some {| v_label := "person";
              v_props := {[ "name" := [VStr "Eric"];
                            "age" := [VNum 40; VNum 41] ]} |}) as Hv
    by (vm_compute; reflexivity).
  split; [exact Hv|].
  destruct (saveNode_keeps_the_label Sample.sign Sample2.erik
              (Sample.connected Sample2.graph) _ Hv)
    as (st' & v' & Hrun & Hv' & Hlabel & _).
  by exists st', v'.
Defined.

(** X6.  [saveEdge] of an edge whose id an edge already has changes its
    properties only: the stored label and the two ends stay, whatever
    [label], [from] and [to] say; every property given holds the value
    given, and nothing else in the graph changes. *)
Theorem saveEdge_keeps_label_and_ends
    (sign : SignOptions → SignCredentials → gmap string value)
    (edge : EdgeModel) (st : State Graph) (e : Edge) :
  edges (world st) !! edge_id edge = Some e →
  ∃ st' e',
    saveEdge sign edge st = (st', Resolved VUndefined)
    ∧ edges (world st') !! edge_id edge = Some e'
    ∧ e_label e' = e_label e ∧ e_outV e' = e_outV e ∧ e_inV e' = e_inV e
    ∧ (∀ k x, edge_properties edge !! k = Some x → e_props e' !! k = Some x)
    ∧ (∀ k, e_props e' !! k ≠ None →
            edge_properties edge !! k ≠ None ∨ e_props e !! k ≠ None)
    ∧ (∀ j, j ≠ edge_id edge →
            edges (world st') !! j = edges (world st) !! j)
    ∧ vertices (world st') = vertices (world st).
Proof.
  intros He. unfold saveEdge.
  rewrite (method_world sign (saveEdge_fn edge) VUndefined)
    by apply saveEdge_fn_returns.
  unfold saveEdge_fn.
  rewrite (proj2 (hasE_lookup _ _)) by (rewrite He; eauto).
  cbn [world set_world emit fst].
  destruct (updateProperties_edge _ (edge_properties edge) _ _ He)
    as (e' & He' & Hlabel & Hout & Hin & Hprops & Hframe & Hvertices).
  eexists _, e'. split; [reflexivity|]. cbn [world].
  repeat split; try done.
  - intros k x Hk. by rewrite Hprops, Hk.
  - intros k Hk. rewrite Hprops in Hk.
    destruct (edge_properties edge !! k); [by left|].
    right. by destruct (has_in k (edge_properties edge)).
Qed.

Lemma saveEdge_keeps_label_and_ends_example :
  edges Sample2.graph !! "e1"
    = Some {| e_label := "owns"; e_outV := "v2"; e_inV := "v1";
              e_props := {[ "since" := VNum 2020 ]} |}
  ∧ ∃ st' e',
      saveEdge Sample.sign Sample2.relabelled (Sample.connected Sample2.graph)
        = (st', Resolved VUndefined)
      ∧ edges (world st') !! "e1" = Some e'
      ∧ e_label e' = "owns" ∧ e_outV e' = "v2" ∧ e_inV e' = "v1".
Proof.
  assert (edges Sample2.graph !! "e1"
    = Some {| e_label := "owns"; e_outV := "v2"; e_inV := "v1";
              e_props := {[ "since" := VNum 2020 ]} |}) as He
    by (vm_compute; reflexivity).
  split; [exact He|].
  destruct (saveEdge_keeps_label_and_ends Sample.sign Sample2.relabelled
              (Sample.connected Sample2.graph) _ He)
    as (st' & e' & Hrun & He' & Hlabel & Hout & Hin & _).
  by exists st', e'.
Defined.

(** X7.  [saveEdge] of a new edge one of whose two vertices does not
    exist resolves without an error and without creating anything: the
    graph is left as it was. *)
Theorem saveEdge_without_a_vertex_creates_nothing
    (sign : SignOptions → SignCredentials → gmap string value)
    (edge : EdgeModel) (st : State Graph) :
  hasE (edge_id edge) (world st) = false →
  hasV (edge_to edge) (world st) = false
  ∨ hasV (edge_from edge) (world st) = false →
  ∃ st',
    saveEdge sign edge st = (st', Resolved VUndefined)
    ∧ world st' = world st.
Proof.
  intros Hnew Hmissing. unfold saveEdge.
  rewrite (method_world sign (saveEdge_fn edge) VUndefined)
    by apply saveEdge_fn_returns.
  eexists. split; [reflexivity|]. cbn [world set_world emit].
  apply saveEdge_fn_dangling; [done|].
  destruct Hmissing as [-> | ->]; [done|apply andb_false_r].
Qed.

Lemma saveEdge_without_a_vertex_example :
  hasE "e2" Sample2.graph = false
  ∧ (hasV "v9" Sample2.graph = false ∨ hasV "v1" Sample2.graph = false)
  ∧ ∃ st',
      saveEdge Sample.sign Sample2.dangling (Sample.connected Sample2.graph)
        = (st', Resolved VUndefined)
      ∧ world st' = Sample2.graph.
Proof.
  assert (hasE "e2" Sample2.graph = false) as Hnew by (vm_compute; reflexivity).
  assert (hasV "v9" Sample2.graph = false ∨ hasV "v1" Sample2.graph = false)
    as Hmissing by (left; vm_compute; reflexivity).
  split; [exact Hnew|]. split; [exact Hmissing|].
  exact (saveEdge_without_a_vertex_creates_nothing Sample.sign Sample2.dangling
           (Sample.connected Sample2.graph) Hnew Hmissing).
Defined.

(** The graph after [deleteNode] of a vertex that is there. *)
Lemma deleteNode_fn_present (id : string) (g : Handle) (G : Graph) :
  hasV id G = true →
  vertices (deleteNode_fn id g G).1 = delete id (vertices G)
  ∧ ∀ j e, edges (deleteNode_fn id g G).1 !! j = Some e ↔
           edges G !! j = Some e ∧ e_inV e ≠ id ∧ e_outV e ≠ id.
Proof.
  intros Hv. unfold deleteNode_fn. cbn [fst]. unfold dropV.
  rewrite hasV_dropOutE, hasV_dropInE, Hv.
  unfold dropOutE. rewrite hasV_dropInE, Hv.
  unfold dropInE. rewrite Hv. cbn. split; [done|].
  intros j e. rewrite !map_lookup_filter_Some. cbn. tauto.
Qed.

(** X8.  [deleteNode] of a vertex that exists removes it together with
    every edge that enters or leaves it, and nothing else: the other
    vertices stay, and an edge stays exactly when neither of its ends is
    the vertex. *)
Theorem deleteNode_removes_the_vertex_and_its_edges
    (sign : SignOptions → SignCredentials → gmap string value)
    (id : string) (st : State Graph) :
  hasV id (world st) = true →
  ∃ st',
    deleteNode sign id st = (st', Resolved VUndefined)
    ∧ vertices (world st') = delete id (vertices (world st))
    ∧ ∀ j e, edges (world st') !! j = Some e ↔
             edges (world st) !! j = Some e ∧ e_inV e ≠ id ∧ e_outV e ≠ id.
Proof.
  intros Hv. unfold deleteNode.
  rewrite (method_world sign (deleteNode_fn id) VUndefined) by done.
  eexists. split; [reflexivity|]. cbn [world set_world emit].
  by apply deleteNode_fn_present.
Qed.

Lemma deleteNode_removes_example :
  hasV "v1" Sample2.graph = true
  ∧ ∃ st',
      deleteNode Sample.sign "v1" (Sample.connected Sample2.graph)
        = (st', Resolved VUndefined)
      ∧ vertices (world st') = delete "v1" (vertices Sample2.graph)
      ∧ ∀ j e, edges (world st') !! j = Some e ↔
               edges Sample2.graph !! j = Some e
               ∧ e_inV e ≠ "v1" ∧ e_outV e ≠ "v1".
Proof.
  assert (hasV "v1" Sample2.graph = true) as Hv by (vm_compute; reflexivity).
  split; [exact Hv|].
  exact (deleteNode_removes_the_vertex_and_its_edges Sample.sign "v1"
           (Sample.connected Sample2.graph) Hv).
Defined.

(* ------------------------------------------------------------------ *)
(** ** No edge without its two vertices                                *)
(* ------------------------------------------------------------------ *)

Lemma closed_updateProperties (id : string) (props : gmap string value)
    (isNode : bool) (G : Graph) :
  closed G → closed (updateProperties id props isNode G).
Proof.
  intros Hclosed j e He. rewrite !hasV_updateProperties.
  pose proof (updateProperties_alter id props isNode G) as Halter.
  destruct isNode; destruct Halter as [F Heq]; rewrite Heq in He;
    cbn in He.
  - by apply (Hclosed j).
  - apply lookup_alter_Some in He as [(-> & e0 & He0 & ->)|[_ He]].
    + cbn. by apply (Hclosed j).
    + by apply (Hclosed j).
Qed.

Lemma closed_saveNode_fn (node : NodeModel) (g : Handle) (G : Graph) :
  closed G → closed (saveNode_fn node g G).1.
Proof.
  intros Hclosed. unfold saveNode_fn.
  destruct (hasV (node_id node) G); cbn [fst];
    apply closed_updateProperties; [done|].
  intros j e He. cbn in He. destruct (Hclosed j e He) as [Hout Hin].
  apply hasV_lookup in Hout, Hin. split; apply hasV_lookup; cbn;
    rewrite lookup_insert_is_Some'; by right.
Qed.

Lemma closed_saveEdge_fn (edge : EdgeModel) (g : Handle) (G : Graph) :
  closed G → closed (saveEdge_fn edge g G).1.
Proof.
  intros Hclosed. unfold saveEdge_fn.
  destruct (hasE (edge_id edge) G); cbn [fst];
    apply closed_updateProperties; [done|].
  unfold addE_from.
  destruct (hasV (edge_to edge) G) eqn:Hto; [|done].
  destruct (hasV (edge_from edge) G) eqn:Hfrom; [|done].
  intros j e He. cbn in He.
  apply lookup_insert_Some in He as [[_ <-]|[_ He]]; [done|].
  by apply (Hclosed j).
Qed.

Lemma closed_deleteNode_fn (id : string) (g : Handle) (G : Graph) :
  closed G → closed (deleteNode_fn id g G).1.
Proof.
  intros Hclosed. destruct (hasV id G) eqn:Hv.
  2:{ by rewrite deleteNode_fn_absent. }
  destruct (deleteNode_fn_present id g G Hv) as [Hvertices Hedges].
  intros j e He. apply Hedges in He as (He & Hin & Hout).
  destruct (Hclosed j e He) as [Ho Hi].
  apply hasV_lookup in Ho, Hi. split; apply hasV_lookup;
    rewrite Hvertices; by rewrite lookup_delete_ne.
Qed.

Lemma closed_deleteEdge_fn (id : string) (g : Handle) (G : Graph) :
  closed G → closed (deleteEdge_fn id g G).1.
Proof.
  intros Hclosed j e He. cbn in He.
  apply lookup_delete_Some in He as [_ He]. by apply (Hclosed j).
Qed.

(** X9.  The four writing methods keep the graph closed: started on a
    graph in which both ends of every edge are vertices, [saveNode],
    [saveEdge], [deleteNode] and [deleteEdge] each leave such a graph. *)
Theorem writes_keep_the_graph_closed
    (sign : SignOptions → SignCredentials → gmap string value)
    (node : NodeModel) (edge : EdgeModel) (id : string) (st : State Graph) :
  closed (world st) →
  closed (world (saveNode sign node st).1)
  ∧ closed (world (saveEdge sign edge st).1)
  ∧ closed (world (deleteNode sign id st).1)
  ∧ closed (world (deleteEdge sign id st).1).
Proof.
  intros Hclosed. unfold saveNode, saveEdge, deleteNode, deleteEdge.
  rewrite (method_world sign (saveNode_fn node) VUndefined)
    by apply saveNode_fn_returns.
  rewrite (method_world sign (saveEdge_fn edge) VUndefined)
    by apply saveEdge_fn_returns.
  rewrite (method_world sign (deleteNode_fn id) VUndefined) by done.
  rewrite (method_world sign (deleteEdge_fn id) VUndefined) by done.
  cbn [fst world set_world emit].
  split; [by apply closed_saveNode_fn|].
  split; [by apply closed_saveEdge_fn|].
  split; [by apply closed_deleteNode_fn|by apply closed_deleteEdge_fn].
Qed.

Lemma closed_sample : closed Sample2.graph.
Proof.
  intros j e He. cbn in He.
  apply lookup_singleton_Some in He as [_ <-].
  split; vm_compute; reflexivity.
Qed.

Lemma writes_keep_the_graph_closed_example :
  closed Sample2.graph
  ∧ closed (world (saveNode Sample.sign Sample2.newcomer
                     (Sample.connected Sample2.graph)).1)
  ∧ closed (world (saveEdge Sample.sign Sample2.likes
                     (Sample.connected Sample2.graph)).1)
  ∧ closed (world (deleteNode Sample.sign "v1"
                     (Sample.connected Sample2.graph)).1)
  ∧ closed (world (deleteEdge Sample.sign "v1"
                     (Sample.connected Sample2.graph)).1).
Proof.
  split; [exact closed_sample|].
  exact (writes_keep_the_graph_closed Sample.sign Sample2.newcomer
           Sample2.likes "v1" (Sample.connected Sample2.graph) closed_sample).
Defined.

(* ------------------------------------------------------------------ *)
(** ** Saving twice, saving then deleting                              *)
(* ------------------------------------------------------------------ *)

Lemma saveNode_fn_twice (node : NodeModel) (g : Handle) (G : Graph) :
  (saveNode_fn node g (saveNode_fn node g G).1).1 = (saveNode_fn node g G).1.
Proof.
  assert (hasV (node_id node) (saveNode_fn node g G).1 = true) as Hthere.
  { unfold saveNode_fn. destruct (hasV (node_id node) G) eqn:Hv; cbn [fst];
      rewrite hasV_updateProperties; [done|].
    apply hasV_lookup. cbn. rewrite lookup_insert_eq. eauto. }
  unfold saveNode_fn at 1. rewrite Hthere. cbn [fst].
  unfold saveNode_fn. destruct (hasV (node_id node) G); cbn [fst];
    apply updateProperties_twice.
Qed.

Lemma saveEdge_fn_twice (edge : EdgeModel) (g : Handle) (G : Graph) :
  (saveEdge_fn edge g (saveEdge_fn edge g G).1).1 = (saveEdge_fn edge g G).1.
Proof.
  destruct (hasE (edge_id edge) G) eqn:He.
  - assert (hasE (edge_id edge) (saveEdge_fn edge g G).1 = true) as Hthere.
    { unfold saveEdge_fn. rewrite He. cbn [fst].
      by rewrite hasE_updateProperties. }
    unfold saveEdge_fn at 1. rewrite Hthere. cbn [fst].
    unfold saveEdge_fn. rewrite He. cbn [fst]. apply updateProperties_twice.
  - destruct (hasV (edge_to edge) G && hasV (edge_from edge) G) eqn:Hends.
    + assert (hasE (edge_id edge) (saveEdge_fn edge g G).1 = true) as Hthere.
      { unfold saveEdge_fn. rewrite He. cbn [fst].
        rewrite hasE_updateProperties. unfold addE_from. rewrite Hends.
        apply hasE_lookup. cbn. rewrite lookup_insert_eq. eauto. }
      unfold saveEdge_fn at 1. rewrite Hthere. cbn [fst].
      unfold saveEdge_fn. rewrite He. cbn [fst]. apply updateProperties_twice.
    + by rewrite !(saveEdge_fn_dangling edge g G).
Qed.

(** X10.  [saveNode] and [saveEdge] are idempotent: saving the same node,
    or the same edge, a second time leaves the graph as the first save
    left it, whatever the graph held before. *)
Theorem save_twice_is_save_once
    (sign : SignOptions → SignCredentials → gmap string value)
    (node : NodeModel) (edge : EdgeModel) (st : State Graph) :
  world (saveNode sign node (saveNode sign node st).1).1
    = world (saveNode sign node st).1
  ∧ world (saveEdge sign edge (saveEdge sign edge st).1).1
    = world (saveEdge sign edge st).1.
Proof.
  unfold saveNode, saveEdge.
  rewrite !(method_world sign (saveNode_fn node) VUndefined)
    by apply saveNode_fn_returns.
  rewrite !(method_world sign (saveEdge_fn edge) VUndefined)
    by apply saveEdge_fn_returns.
  cbn [fst world set_world emit this].
  split; [apply saveNode_fn_twice|apply saveEdge_fn_twice].
Qed.

Lemma untouched_by_edges (id : string) (G : Graph) :
  closed G → hasV id G = false →
  ∀ j e, edges G !! j = Some e → e_inV e ≠ id ∧ e_outV e ≠ id.
Proof.
  intros Hclosed Hv j e He. destruct (Hclosed j e He) as [Hout Hin].
  split; intros <-; congruence.
Qed.

(** X11.  Deleting what was just created restores the graph.  On a closed
    graph without a vertex [id], [saveNode] of a node with that id
    followed by [deleteNode] gives the graph back; on any graph without an
    edge [id], [saveEdge] followed by [deleteEdge] gives it back. *)
Theorem delete_undoes_a_creating_save
    (sign : SignOptions → SignCredentials → gmap string value)
    (node : NodeModel) (edge : EdgeModel) (st : State Graph) :
  (closed (world st) → hasV (node_id node) (world st) = false →
   world (deleteNode sign (node_id node) (saveNode sign node st).1).1
     = world st)
  ∧ (hasE (edge_id edge) (world st) = false →
     world (deleteEdge sign (edge_id edge) (saveEdge sign edge st).1).1
       = world st).
Proof.
  unfold saveNode, saveEdge, deleteNode, deleteEdge.
  rewrite (method_world sign (saveNode_fn node) VUndefined)
    by apply saveNode_fn_returns.
  rewrite (method_world sign (saveEdge_fn edge) VUndefined)
    by apply saveEdge_fn_returns.
  rewrite (method_world sign (deleteNode_fn _) VUndefined) by done.
  rewrite (method_world sign (deleteEdge_fn _) VUndefined) by done.
  cbn [fst world set_world emit this]. split.
  - intros Hclosed Hnew.
    destruct (saveNode_fn_new node (withRemote (connection (this st)))
                (world st) Hnew) as [Hvertices Hedges].
    set (G1 := (saveNode_fn node (withRemote (connection (this st)))
                  (world st)).1) in *.
    assert (hasV (node_id node) G1 = true) as Hthere.
    { apply hasV_lookup. rewrite Hvertices, lookup_insert_eq. eauto. }
    destruct (deleteNode_fn_present (node_id node)
                (withRemote (connection (this st))) G1 Hthere)
      as [Hvertices' Hedges'].
    apply Graph_eq.
    + rewrite Hvertices', Hvertices, delete_insert_eq.
      apply delete_id. by apply hasV_false.
    + apply map_eq. intros j. apply option_eq. intros e.
      rewrite Hedges', Hedges. split; [tauto|]. intros He.
      split; [done|]. by apply (untouched_by_edges _ _ Hclosed Hnew j).
  - intros Hnew. unfold deleteEdge_fn, dropE. cbn [fst].
    destruct (hasV (edge_to edge) (world st)
              && hasV (edge_from edge) (world st)) eqn:Hends.
    2:{ rewrite (saveEdge_fn_dangling edge _ _ Hnew Hends).
        apply Graph_eq; cbn; [done|]. apply delete_id. by apply hasE_false. }
    unfold saveEdge_fn. rewrite Hnew. cbn [fst].
    pose proof (updateProperties_alter (edge_id edge) (edge_properties edge)
                  false (addE_from (edge_to edge) (edge_from edge)
                           (edge_label edge) (edge_id edge) (world st)))
      as [F ->].
    unfold addE_from. rewrite Hends. apply Graph_eq; cbn; [done|].
    apply map_eq. intros j. destruct (decide (j = edge_id edge)) as [->|Hj].
    + rewrite lookup_delete_eq. symmetry. by apply hasE_false.
    + by rewrite lookup_delete_ne, lookup_alter_ne, lookup_insert_ne.
Qed.

Lemma delete_undoes_a_creating_save_example :
  closed Sample2.graph ∧ hasV "v3" Sample2.graph = false
  ∧ world (deleteNode Sample.sign "v3"
             (saveNode Sample.sign Sample2.newcomer
                (Sample.connected Sample2.graph)).1).1
    = Sample2.graph.
Proof.
  assert (hasV "v3" Sample2.graph = false) as Hnew by (vm_compute; reflexivity).
  split; [exact closed_sample|]. split; [exact Hnew|].
  exact (proj1 (delete_undoes_a_creating_save Sample.sign Sample2.newcomer
                  Sample2.likes (Sample.connected Sample2.graph))
           closed_sample Hnew).
Defined.

(* ================================================================== *)
(** * query: further properties                                        *)
(* ================================================================== *)

Section QueryMore.
Context {W A : Type}.
Variable sign : SignOptions → SignCredentials → gmap string value.
Variable f : Handle → W → W * completion A.

(** Asked by [async.retry], [errorFilter] leaves the instance and the
    variable [g] as they are, whatever it answers. *)
Lemma errorFilter_on_options_state (err : error) (s : State W * Handle) :
  (errorFilter sign OnRetryOptions err s).1 = s.
Proof.
  unfold errorFilter. destruct s as [st g].
  destruct (startsWith _ _); [done|].
  destruct (includes _ "ConcurrentModificationException"); [done|].
  by destruct (includes _ "ReadOnlyViolationException").
Qed.

Lemma retryAttempt_succeeds (g : Handle) (a : A) :
  ∀ (n remaining : nat) (st : State W),
    (n ≤ remaining)%nat →
    (∀ i, (i < n)%nat → ∃ err,
        (f g (worldAfter f g i (world st))).2 = Throws err
        ∧ startsWith (message err) "WebSocket is not open" = false
        ∧ includes (message err) "ConcurrentModificationException"
          || includes (message err) "ReadOnlyViolationException" = true) →
    (f g (worldAfter f g n (world st))).2 = Returns a →
    ∃ st',
      retryAttempt 1000 (errorFilter sign) setTimeout (task f) remaining (st, g)
        = ((st', g), Resolved a)
      ∧ trace st' = trace st ++ attempts g n
      ∧ world st' = worldAfter f g (S n) (world st)
      ∧ this st' = this st.
Proof.
  induction n as [|n IH]; intros remaining st Hle Hfail Hok.
  - cbn [worldAfter] in Hok.
    destruct remaining; cbn [retryAttempt]; rewrite task_call, Hok;
      eexists; split; try reflexivity; by repeat split.
  - destruct remaining as [|remaining]; [lia|].
    destruct (Hfail 0%nat) as (err & Hf & Hsocket & Hcontent); [lia|].
    cbn [worldAfter] in Hf.
    cbn [retryAttempt]. rewrite task_call, Hf.
    rewrite (errorFilter_conflict sign _ _ _ Hsocket Hcontent).
    cbn [setTimeout].
    destruct (IH remaining
                (emit (Wait 1000)
                   (set_world (f g (world st)).1 (emit (Invoke g) st))))
      as (st' & -> & Htrace & Hworld & Hthis).
    + lia.
    + intros i Hi. apply (Hfail (S i)). lia.
    + exact Hok.
    + exists st'. split; [reflexivity|].
      cbn in Htrace, Hworld, Hthis. repeat split; try done.
      rewrite Htrace. cbn [attempts]. by rewrite <-!app_assoc.
Qed.

Lemma retryAttempt_keeps_the_connection (g : Handle) :
  ∀ (remaining : nat) (st : State W), ∃ n st' r,
    retryAttempt 1000 (errorFilter sign) setTimeout (task f) remaining (st, g)
      = ((st', g), r)
    ∧ (n ≤ remaining)%nat
    ∧ trace st' = trace st ++ attempts g n
    ∧ this st' = this st
    ∧ built st' = built st
    ∧ process_env st' = process_env st.
Proof.
  induction remaining as [|remaining IH]; intros st.
  - exists 0%nat. cbn [retryAttempt]. rewrite task_call.
    destruct (f g (world st)).2; eexists _, _; by repeat split.
  - cbn [retryAttempt]. rewrite task_call.
    destruct (f g (world st)).2 as [a|err].
    { exists 0%nat. eexists _, _. split; [reflexivity|].
      repeat split; try done. lia. }
    pose proof (errorFilter_on_options_state err
                  (set_world (f g (world st)).1 (emit (Invoke g) st), g))
      as Hstate.
    destruct (errorFilter sign OnRetryOptions err _) as [s again].
    cbn in Hstate. subst s.
    destruct again as [[|]|e].
    + cbn [setTimeout].
      destruct (IH (emit (Wait 1000)
                      (set_world (f g (world st)).1 (emit (Invoke g) st))))
        as (n & st' & r & -> & Hn & Htrace & Hthis & Hbuilt & Henv).
      exists (S n), st', r. split; [reflexivity|].
      cbn in Htrace, Hthis, Hbuilt, Henv. repeat split; try done; [lia|].
      rewrite Htrace. cbn [attempts]. by rewrite <-!app_assoc.
    + exists 0%nat. eexists _, _. split; [reflexivity|].
      repeat split; try done. lia.
    + exists 0%nat. eexists _, _. split; [reflexivity|].
      repeat split; try done. lia.
Qed.
End QueryMore.

(** X12.  Conflicts are retried until the query function returns: when
    its first [n ≤ 4] calls fail with an error whose message names a
    concurrent modification or a read-only violation and the next call
    returns, [query] resolves with what that call returned, after [n + 1]
    calls with a wait of 1000 ms before each repeated one. *)
Theorem query_retries_until_success {W A : Type}
    (sign : SignOptions → SignCredentials → gmap string value)
    (f : Handle → W → W * completion A) (st : State W) (n : nat) (a : A) :
  let g := withRemote (connection (this st)) in
  (n ≤ 4)%nat →
  (∀ i, (i < n)%nat → ∃ err,
      (f g (worldAfter f g i (world st))).2 = Throws err
      ∧ startsWith (message err) "WebSocket is not open" = false
      ∧ includes (message err) "ConcurrentModificationException"
        || includes (message err) "ReadOnlyViolationException" = true) →
  (f g (worldAfter f g n (world st))).2 = Returns a →
  ∃ st',
    query sign f st = (st', Resolved a)
    ∧ trace st' = trace st ++ attempts g n
    ∧ world st' = worldAfter f g (S n) (world st)
    ∧ this st' = this st.
Proof.
  intros g Hn Hfail Hok.
  destruct (retryAttempt_succeeds sign f g a n 4 st Hn Hfail Hok)
    as (st' & Hrun & Htrace & Hworld & Hthis).
  exists st'. unfold query, retry. cbn [Nat.eqb Nat.pred]. fold g.
  by rewrite Hrun.
Qed.

Lemma query_retries_until_success_example :
  ∃ st',
    query Sample.sign Sample2.flaky Sample2.counting
      = (st', Resolved (VNum 2))
    ∧ trace st' =
        [Invoke (withRemote (Some Sample.remote1)); Wait 1000;
         Invoke (withRemote (Some Sample.remote1)); Wait 1000;
         Invoke (withRemote (Some Sample.remote1))]
    ∧ world st' = 3%nat
    ∧ this st' = this Sample2.counting.
Proof.
  apply (query_retries_until_success Sample.sign Sample2.flaky
           Sample2.counting 2 (VNum 2)).
  - lia.
  - intros i Hi. exists (Error "ConcurrentModificationException: try again").
    destruct i as [|[|i]]; [| |lia]; repeat split; vm_compute; reflexivity.
  - vm_compute. reflexivity.
Defined.

(** X13.  Whatever the query function does, [query] calls it at most five
    times, every time with the traversal source made from the connection
    the instance had at the start, with a wait of 1000 ms between two
    calls; it never closes or opens a connection and leaves the instance
    as it was. *)
Theorem query_never_replaces_the_connection {W A : Type}
    (sign : SignOptions → SignCredentials → gmap string value)
    (f : Handle → W → W * completion A) (st : State W) :
  ∃ n,
    (n ≤ 4)%nat
    ∧ trace (query sign f st).1
      = trace st ++ attempts (withRemote (connection (this st))) n
    ∧ this (query sign f st).1 = this st
    ∧ built (query sign f st).1 = built st
    ∧ process_env (query sign f st).1 = process_env st.
Proof.
  destruct (retryAttempt_keeps_the_connection sign f
              (withRemote (connection (this st))) 4 st)
    as (n & st' & r & Hrun & Hn & Htrace & Hthis & Hbuilt & Henv).
  exists n. unfold query, retry. cbn [Nat.eqb Nat.pred].
  rewrite Hrun. by repeat split.
Qed.

(* ================================================================== *)
(** * connect: further properties                                      *)
(* ================================================================== *)

Lemma or_else_undefined (v : value) : or_else VUndefined v = v.
Proof. reflexivity. Qed.

(** X14.  [connect] on an instance that signs its requests takes the
    credentials from the environment alone.  It rejects, building nothing
    and leaving the instance as it was, when host or port is falsy or
    when [AWS_ACCESS_KEY_ID] or [AWS_SECRET_ACCESS_KEY] is unset or
    empty; otherwise it stores a new connection to
    [wss://host:port/gremlin] whose headers are those signed for the
    service ["neptune-db"] and the path ["/gremlin"] with the keys, the
    session token and the region of the environment. *)
Theorem connect_signs_with_the_environment {W : Type}
    (sign : SignOptions → SignCredentials → gmap string value)
    (st : State W) :
  useIam (this st) = true →
  let env := process_env st in
  let ready :=
    truthy (host (this st)) && truthy (port (this st))
    && truthy (env_get env "AWS_ACCESS_KEY_ID")
    && truthy (env_get env "AWS_SECRET_ACCESS_KEY") in
  (ready = false → ∃ err, connect sign st = (st, Throws err))
  ∧ (ready = true →
     ∃ st' c,
       connect sign st = (st', Returns tt)
       ∧ connection (this st') = Some c
       ∧ url c = "wss://" +:+ to_string (host (this st)) +:+ ":"
                 +:+ to_string (port (this st)) +:+ "/gremlin"
       ∧ mimeType c = "application/vnd.gremlin-v2.0+json"
       ∧ headers c =
           sign {| so_host := to_string (host (this st)) +:+ ":"
                              +:+ to_string (port (this st));
                   so_region := env_get env "AWS_DEFAULT_REGION";
                   so_path := VStr "/gremlin";
                   so_service := "neptune-db" |}
                {| accessKeyId := env_get env "AWS_ACCESS_KEY_ID";
                   secretAccessKey := env_get env "AWS_SECRET_ACCESS_KEY";
                   sessionToken := env_get env "AWS_SESSION_TOKEN" |}
       ∧ serial c = S (built st)
       ∧ trace st' = trace st ++ [Open c]
       ∧ world st' = world st).
Proof.
  intros Hiam env ready. subst ready env.
  unfold connect, getHeaders. rewrite Hiam.
  cbn [member]. rewrite !or_else_try_returns. cbn [mbind completion_bind].
  unfold get. rewrite !lookup_empty. cbn [from_option].
  rewrite !or_else_undefined.
  destruct (truthy (host (this st))); cbn [andb negb orb].
  2:{ split; [eauto|done]. }
  destruct (truthy (port (this st))); cbn [andb negb orb].
  2:{ split; [eauto|done]. }
  destruct (truthy (env_get (process_env st) "AWS_ACCESS_KEY_ID"));
    cbn [andb negb orb].
  2:{ split; [eauto|done]. }
  destruct (truthy (env_get (process_env st) "AWS_SECRET_ACCESS_KEY"));
    cbn [andb negb orb].
  2:{ split; [eauto|done]. }
  split; [done|]. intros _. eexists _, _.
  split; [reflexivity|]. cbn. by repeat split.
Qed.

Lemma connect_signs_example :
  useIam (this Sample2.signing) = true
  ∧ ∃ st' c,
      connect Sample.sign Sample2.signing = (st', Returns tt)
      ∧ connection (this st') = Some c
      ∧ url c = "wss://db.example:8182/gremlin"
      ∧ headers c =
          {[ "Host" := VStr "db.example:8182";
             "Authorization" := VStr "AKIA" ]}.
Proof.
  assert (useIam (this Sample2.signing) = true) as Hiam by reflexivity.
  split; [exact Hiam|].
  destruct (proj2 (connect_signs_with_the_environment Sample.sign
                     Sample2.signing Hiam))
    as (st' & c & Hrun & Hc & Hurl & _ & Hheaders & _).
  { vm_compute. reflexivity. }
  exists st', c. split; [exact Hrun|]. split; [exact Hc|].
  split; [rewrite Hurl|rewrite Hheaders]; vm_compute; reflexivity.
Defined.

(* ================================================================== *)
(** * search: further properties                                       *)
(* ================================================================== *)

(** The node built from the row of a vertex. *)
Lemma toNode_valueMapTrue (id : string) (v : Vertex) :
  Node.id (toNode (valueMapTrue id v)) = VStr id
  ∧ Node.labels (toNode (valueMapTrue id v)) = VArr [VStr (v_label v)]
  ∧ ∀ k, Node.properties (toNode (valueMapTrue id v)) !! k =
      if bool_decide (k = "id" ∨ k = "label") then None
      else stored <$> (VArr <$> v_props v !! k).
Proof.
  split; [|split].
  - unfold toNode, get, valueMapTrue. cbn [Node.id].
    by rewrite lookup_insert_eq.
  - unfold toNode, get, valueMapTrue. cbn [Node.labels].
    rewrite lookup_insert_ne by done. by rewrite lookup_insert_eq.
  - intros k. rewrite toNode_properties. case_bool_decide as Hk; [done|].
    unfold valueMapTrue.
    rewrite !lookup_insert_ne by (intros <-; apply Hk; auto).
    by rewrite lookup_fmap.
Qed.

(** Without focus, the ids of the nodes are the ids of the vertices. *)
Lemma nodeExists_unfocused (G : Graph) (vid : string) :
  nodeExists (toNode <$> V_valueMapTrue G) (VStr vid) = hasV vid G.
Proof.
  apply eq_true_iff_eq. rewrite nodeExists_primitive by done.
  rewrite hasV_lookup. unfold V_valueMapTrue.
  rewrite <-!list_fmap_compose, list_elem_of_fmap. split.
  - intros ([j v] & Hid & Hin). cbn [compose fst snd] in Hid.
    rewrite (proj1 (toNode_valueMapTrue j v)) in Hid. injection Hid as ->.
    apply elem_of_map_to_list in Hin. eauto.
  - intros [v Hv]. exists (vid, v). cbn [compose fst snd].
    split; [by rewrite (proj1 (toNode_valueMapTrue vid v))|].
    by apply elem_of_map_to_list.
Qed.

(** The edge built from the row of an edge. *)
Lemma toEdge_elementMap_fields (G : Graph) (id : string) (e : Edge) :
  ∃ edge,
    toEdge (elementMap G id e) = Returns edge
    ∧ Edge.id edge = VStr id
    ∧ Edge.label edge = VStr (e_label e)
    ∧ Edge.from edge = VStr (e_inV e)
    ∧ Edge.to edge = VStr (e_outV e)
    ∧ ∀ q, Edge.properties edge !! q =
        if bool_decide (q ∈ ["id"; "label"; "IN"; "OUT"]) then None
        else e_props e !! q.
Proof.
  destruct (toEdge_elementMap G id e) as (edge & Hedge & Hfrom & Hto).
  exists edge. split; [done|].
  destruct (toEdge_fields _ _ Hedge) as (Hid & Hlabel & _ & _ & Hprops).
  unfold elementMap in Hid, Hlabel, Hprops.
  rewrite lookup_insert_eq in Hid.
  rewrite lookup_insert_ne, lookup_insert_eq in Hlabel by done.
  repeat split; try done.
  intros q. rewrite Hprops. case_bool_decide as Hq; [done|].
  rewrite !lookup_insert_ne; [done|..]; intros <-; apply Hq;
    apply list_elem_of_In; simpl; tauto.
Qed.

(** [search] without focus: the result in terms of the graph. *)
Lemma search_unfocused
    (sign : SignOptions → SignCredentials → gmap string value)
    (focusRows : Focus → Graph → list (gmap string value))
    (st : State Graph) :
  ∃ st' kept,
    search sign focusRows {| focus := None |} st
      = (st', Resolved {| Result.nodes := toNode <$> V_valueMapTrue (world st);
                          Result.edges := kept |})
    ∧ world st' = world st
    ∧ ∀ edge, edge ∈ kept ↔
        ∃ j e, edges (world st) !! j = Some e
             ∧ toEdge (elementMap (world st) j e) = Returns edge
             ∧ hasV (e_inV e) (world st) = true
             ∧ hasV (e_outV e) (world st) = true.
Proof.
  destruct (extract_returns (V_valueMapTrue (world st))
              (E_elementMap (world st))) as (kept & Hout & Hkept).
  { intros e He. unfold E_elementMap in He.
    apply list_elem_of_fmap in He as ([j ed] & -> & _).
    destruct (toEdge_elementMap (world st) j ed) as (edge & ? & _).
    by exists edge. }
  eexists _, kept. split.
  { unfold search.
    apply (query_success sign (search_fn focusRows {| focus := None |})).
    cbn. exact Hout. }
  split; [done|]. intros edge. rewrite Hkept. unfold E_elementMap. split.
  - intros (row & Hrow & Hedge & Hfrom & Hto).
    apply list_elem_of_fmap in Hrow as ([j e] & -> & Hin).
    apply elem_of_map_to_list in Hin. cbn [fst snd] in Hedge.
    destruct (toEdge_elementMap (world st) j e) as (edge' & Hedge' & Hf & Ht).
    rewrite Hedge in Hedge'. injection Hedge' as <-.
    rewrite Hf, nodeExists_unfocused in Hfrom.
    rewrite Ht, nodeExists_unfocused in Hto.
    by exists j, e.
  - intros (j & e & He & Hedge & Hin & Hout').
    destruct (toEdge_elementMap (world st) j e) as (edge' & Hedge' & Hf & Ht).
    rewrite Hedge in Hedge'. injection Hedge' as <-.
    exists (elementMap (world st) j e). split.
    { apply list_elem_of_fmap. exists (j, e). split; [done|].
      by apply elem_of_map_to_list. }
    split; [done|]. by rewrite Hf, Ht, !nodeExists_unfocused.
Qed.

Lemma Node_eq (n1 n2 : Node.t) :
  Node.id n1 = Node.id n2 → Node.labels n1 = Node.labels n2 →
  Node.properties n1 = Node.properties n2 → n1 = n2.
Proof. destruct n1, n2; simpl; congruence. Qed.

Lemma ResultEdge_eq (e1 e2 : Edge.t) :
  Edge.id e1 = Edge.id e2 → Edge.label e1 = Edge.label e2 →
  Edge.from e1 = Edge.from e2 → Edge.to e1 = Edge.to e2 →
  Edge.properties e1 = Edge.properties e2 → e1 = e2.
Proof. destruct e1, e2; simpl; congruence. Qed.

Lemma toNode_valueMapTrue_plain (id : string) (v : Vertex) :
  v_props v !! "id" = None → v_props v !! "label" = None →
  toNode (valueMapTrue id v) = nodeOf id v.
Proof.
  intros Hid Hlabel.
  destruct (toNode_valueMapTrue id v) as (Hi & Hl & Hp).
  apply Node_eq; [done..|]. apply map_eq. intros k. rewrite Hp.
  cbn [nodeOf Node.properties]. rewrite !lookup_fmap.
  case_bool_decide as Hk; [|done].
  by destruct Hk as [-> | ->]; rewrite ?Hid, ?Hlabel.
Qed.

Lemma toEdge_elementMap_plain (G : Graph) (id : string) (e : Edge) :
  (∀ q, q ∈ ["id"; "label"; "IN"; "OUT"] → e_props e !! q = None) →
  toEdge (elementMap G id e) = Returns (edgeOf id e).
Proof.
  intros Hplain.
  destruct (toEdge_elementMap_fields G id e)
    as (edge & -> & Hid & Hlabel & Hfrom & Hto & Hprops).
  f_equal. apply ResultEdge_eq; [done..|]. apply map_eq. intros q.
  rewrite Hprops. cbn [edgeOf Edge.properties].
  case_bool_decide as Hq; [|done]. symmetry. by apply Hplain.
Qed.

(** A property saved with one value comes back as that value. *)
Lemma stored_single (props : gmap string value) :
  stored <$> (VArr <$> ((λ x, [x]) <$> props)) = props.
Proof.
  apply map_eq. intros k. rewrite !lookup_fmap.
  by destruct (props !! k).
Qed.

(** X15.  A saved node is found again.  After [saveNode] of a node whose
    id no vertex has and none of whose properties is called ["id"] or
    ["label"], [search] without focus returns a node with that id, with
    the labels joined by ["::"] as its one label, and with exactly the
    properties saved, each as the bare value. *)
Theorem search_finds_the_saved_node
    (sign : SignOptions → SignCredentials → gmap string value)
    (focusRows : Focus → Graph → list (gmap string value))
    (node : NodeModel) (st : State Graph) :
  hasV (node_id node) (world st) = false →
  node_properties node !! "id" = None →
  node_properties node !! "label" = None →
  ∃ st1 st2 out,
    saveNode sign node st = (st1, Resolved VUndefined)
    ∧ search sign focusRows {| focus := None |} st1 = (st2, Resolved out)
    ∧ {| Node.id := VStr (node_id node);
         Node.labels := VArr [VStr (join "::" (node_labels node))];
         Node.properties := node_properties node |} ∈ Result.nodes out.
Proof.
  intros Hnew Hid Hlabel. unfold saveNode.
  rewrite (method_world sign (saveNode_fn node) VUndefined)
    by apply saveNode_fn_returns.
  eexists. 
  destruct (search_unfocused sign focusRows
              (set_world (saveNode_fn node (withRemote (connection (this st)))
                            (world st)).1
                 (emit (Invoke (withRemote (connection (this st)))) st)))
    as (st2 & kept & Hsearch & _ & _).
  eexists st2, _. split; [reflexivity|]. split; [exact Hsearch|].
  cbn [Result.nodes world set_world emit].
  destruct (saveNode_fn_new node (withRemote (connection (this st)))
              (world st) Hnew) as [Hvertices _].
  set (v := {| v_label := join "::" (node_labels node);
               v_props := (λ x, [x]) <$> node_properties node |}) in *.
  assert (toNode (valueMapTrue (node_id node) v)
          = {| Node.id := VStr (node_id node);
               Node.labels := VArr [VStr (join "::" (node_labels node))];
               Node.properties := node_properties node |}) as <-.
  { rewrite toNode_valueMapTrue_plain.
    - unfold nodeOf. cbn [v v_label v_props]. by rewrite stored_single.
    - cbn. by rewrite lookup_fmap, Hid.
    - cbn. by rewrite lookup_fmap, Hlabel. }
  unfold V_valueMapTrue. rewrite <-list_fmap_compose.
  apply list_elem_of_fmap. exists (node_id node, v). split; [done|].
  apply elem_of_map_to_list. rewrite Hvertices. apply lookup_insert_eq.
Qed.

Lemma search_finds_the_saved_node_example :
  hasV "v3" Sample2.graph = false
  ∧ Sample2.desired !! "id" = None ∧ Sample2.desired !! "label" = None
  ∧ ∃ st1 st2 out,
      saveNode Sample.sign Sample2.newcomer (Sample.connected Sample2.graph)
        = (st1, Resolved VUndefined)
      ∧ search Sample.sign Sample.noFocus {| focus := None |} st1
        = (st2, Resolved out)
      ∧ {| Node.id := VStr "v3";
           Node.labels := VArr [VStr "person::guest"];
           Node.properties := Sample2.desired |} ∈ Result.nodes out.
Proof.
  assert (hasV "v3" Sample2.graph = false) as Hnew by (vm_compute; reflexivity).
  assert (Sample2.desired !! "id" = None) as Hid by (vm_compute; reflexivity).
  assert (Sample2.desired !! "label" = None) as Hlabel
    by (vm_compute; reflexivity).
  split; [exact Hnew|]. split; [exact Hid|]. split; [exact Hlabel|].
  exact (search_finds_the_saved_node Sample.sign Sample.noFocus
           Sample2.newcomer (Sample.connected Sample2.graph) Hnew Hid Hlabel).
Defined.

(** X16.  A saved edge is found again with the ends it was saved with.
    On a plain graph that holds the two vertices and no edge with the id,
    after [saveEdge] of an edge none of whose properties is called
    ["id"], ["label"], ["IN"] or ["OUT"], [search] without focus returns
    an edge with that id and label, whose [from] and [to] are the ones
    given and whose properties are exactly the ones given. *)
Theorem search_finds_the_saved_edge
    (sign : SignOptions → SignCredentials → gmap string value)
    (focusRows : Focus → Graph → list (gmap string value))
    (edge : EdgeModel) (st : State Graph) :
  plain (world st) →
  hasE (edge_id edge) (world st) = false →
  hasV (edge_from edge) (world st) = true →
  hasV (edge_to edge) (world st) = true →
  (∀ q, q ∈ ["id"; "label"; "IN"; "OUT"] → edge_properties edge !! q = None) →
  ∃ st1 st2 out,
    saveEdge sign edge st = (st1, Resolved VUndefined)
    ∧ search sign focusRows {| focus := None |} st1 = (st2, Resolved out)
    ∧ {| Edge.id := VStr (edge_id edge);
         Edge.label := VStr (edge_label edge);
         Edge.from := VStr (edge_from edge);
         Edge.to := VStr (edge_to edge);
         Edge.properties := edge_properties edge |} ∈ Result.edges out.
Proof.
  intros _ Hnew Hfrom Hto Hprops. unfold saveEdge.
  rewrite (method_world sign (saveEdge_fn edge) VUndefined)
    by apply saveEdge_fn_returns.
  set (g := withRemote (connection (this st))).
  set (G1 := (saveEdge_fn edge g (world st)).1).
  destruct (search_unfocused sign focusRows
              (set_world G1 (emit (Invoke g) st)))
    as (st2 & kept & Hsearch & _ & Hkept).
  eexists _, st2, _. split; [reflexivity|]. split; [exact Hsearch|].
  cbn [Result.edges]. apply Hkept. cbn [world set_world emit].
  set (e := {| e_label := edge_label edge; e_outV := edge_to edge;
               e_inV := edge_from edge; e_props := edge_properties edge |}).
  assert (edges G1 !! edge_id edge = Some e) as He
    by by apply saveEdge_fn_new.
  assert (∀ j, hasV j G1 = hasV j (world st)) as Hvertices.
  { intros j. unfold G1, saveEdge_fn. rewrite Hnew. cbn [fst].
    rewrite hasV_updateProperties. unfold addE_from.
    by destruct (_ && _). }
  exists (edge_id edge), e. split; [done|]. split.
  - by rewrite (toEdge_elementMap_plain G1 (edge_id edge) e Hprops).
  - by rewrite !Hvertices.
Qed.

Lemma plain_sample : plain Sample2.graph.
Proof.
  split.
  - intros j v Hv. cbn in Hv.
    apply lookup_insert_Some in Hv as [[_ <-]|[_ Hv]]; [by vm_compute|].
    apply lookup_singleton_Some in Hv as [_ <-]. by vm_compute.
  - intros j e He q Hq. cbn in He.
    apply lookup_singleton_Some in He as [_ <-]. cbn.
    apply lookup_singleton_ne. intros <-.
    apply list_elem_of_In in Hq. simpl in Hq. intuition discriminate.
Qed.

Lemma search_finds_the_saved_edge_example :
  plain Sample2.graph
  ∧ hasE "e2" Sample2.graph = false
  ∧ hasV "v1" Sample2.graph = true
  ∧ hasV "v2" Sample2.graph = true
  ∧ ∃ st1 st2 out,
      saveEdge Sample.sign Sample2.likes (Sample.connected Sample2.graph)
        = (st1, Resolved VUndefined)
      ∧ search Sample.sign Sample.noFocus {| focus := None |} st1
        = (st2, Resolved out)
      ∧ {| Edge.id := VStr "e2";
           Edge.label := VStr "likes";
           Edge.from := VStr "v1";
           Edge.to := VStr "v2";
           Edge.properties := {[ "much" := VBool true ]} |}
        ∈ Result.edges out.
Proof.
  assert (hasE "e2" Sample2.graph = false) as Hnew by (vm_compute; reflexivity).
  assert (hasV "v1" Sample2.graph = true) as Hfrom by (vm_compute; reflexivity).
  assert (hasV "v2" Sample2.graph = true) as Hto by (vm_compute; reflexivity).
  split; [exact plain_sample|]. split; [exact Hnew|].
  split; [exact Hfrom|]. split; [exact Hto|].
  apply (search_finds_the_saved_edge Sample.sign Sample.noFocus Sample2.likes
           (Sample.connected Sample2.graph) plain_sample Hnew Hfrom Hto).
  intros q Hq. cbn. apply lookup_singleton_ne. intros <-.
  apply list_elem_of_In in Hq. simpl in Hq. intuition discriminate.
Defined.

(** X17.  On a closed, plain graph [search] without focus returns the
    whole graph and leaves it as it is: one node for each vertex, with its
    id, its label as the one label and its properties, a property with
    one value as that value; and one edge for each edge, with its id,
    label and properties, whose [from] is the vertex the edge enters and
    whose [to] is the vertex it leaves. *)
Theorem search_without_focus_returns_the_graph
    (sign : SignOptions → SignCredentials → gmap string value)
    (focusRows : Focus → Graph → list (gmap string value))
    (st : State Graph) :
  closed (world st) → plain (world st) →
  ∃ st' out,
    search sign focusRows {| focus := None |} st = (st', Resolved out)
    ∧ world st' = world st
    ∧ length (Result.nodes out) = size (vertices (world st))
    ∧ (∀ node, node ∈ Result.nodes out ↔
         ∃ j v, vertices (world st) !! j = Some v ∧ node = nodeOf j v)
    ∧ (∀ edge, edge ∈ Result.edges out ↔
         ∃ j e, edges (world st) !! j = Some e ∧ edge = edgeOf j e).
Proof.
  intros Hclosed [Hpv Hpe].
  destruct (search_unfocused sign focusRows st)
    as (st' & kept & Hsearch & Hworld & Hkept).
  eexists st', _. split; [exact Hsearch|]. split; [done|].
  cbn [Result.nodes Result.edges]. split; [|split].
  - unfold V_valueMapTrue. by rewrite !length_fmap, length_map_to_list.
  - intros node. unfold V_valueMapTrue.
    rewrite <-list_fmap_compose, list_elem_of_fmap. split.
    + intros ([j v] & -> & Hin). apply elem_of_map_to_list in Hin.
      exists j, v. split; [done|]. cbn [compose fst snd].
      destruct (Hpv j v Hin). by apply toNode_valueMapTrue_plain.
    + intros (j & v & Hv & ->). exists (j, v).
      split; [|by apply elem_of_map_to_list]. cbn [compose fst snd].
      destruct (Hpv j v Hv). symmetry. by apply toNode_valueMapTrue_plain.
  - intros edge. rewrite Hkept. split.
    + intros (j & e & He & Hedge & _). exists j, e. split; [done|].
      rewrite (toEdge_elementMap_plain _ j e (Hpe j e He)) in Hedge.
      by injection Hedge.
    + intros (j & e & He & ->). exists j, e. split; [done|].
      split; [by apply toEdge_elementMap_plain, (Hpe j)|].
      destruct (Hclosed j e He). by split.
Qed.

Lemma search_without_focus_example :
  closed Sample2.graph ∧ plain Sample2.graph
  ∧ ∃ st' out,
      search Sample.sign Sample.noFocus {| focus := None |}
        (Sample.connected Sample2.graph) = (st', Resolved out)
      ∧ world st' = Sample2.graph
      ∧ length (Result.nodes out) = 2%nat
      ∧ edgeOf "e1" {| e_label := "owns"; e_outV := "v2"; e_inV := "v1";
                       e_props := {[ "since" := VNum 2020 ]} |}
        ∈ Result.edges out.
Proof.
  split; [exact closed_sample|]. split; [exact plain_sample|].
  destruct (search_without_focus_returns_the_graph Sample.sign Sample.noFocus
              (Sample.connected Sample2.graph) closed_sample plain_sample)
    as (st' & out & Hrun & Hworld & Hlen & _ & Hedges).
  exists st', out. split; [exact Hrun|]. split; [exact Hworld|].
  split; [exact Hlen|]. apply Hedges. eexists _, _. split; [|reflexivity].
  vm_compute. reflexivity.
Defined.

(** X18.  A focus that matches nothing gives an empty result and no
    error: when the focus traversal returns no row, [search] resolves
    with no node and no edge, whatever edges the graph holds. *)
Theorem search_with_unmatched_focus_is_empty
    (sign : SignOptions → SignCredentials → gmap string value)
    (focusRows : Focus → Graph → list (gmap string value))
    (f : Focus) (st : State Graph) :
  focusRows f (world st) = [] →
  ∃ st',
    search sign focusRows {| focus := Some f |} st
      = (st', Resolved {| Result.nodes := []; Result.edges := [] |})
    ∧ world st' = world st.
Proof.
  intros Hrows.
  destruct (extract_returns [] (E_elementMap (world st)))
    as (kept & Hout & Hkept).
  { intros e He. unfold E_elementMap in He.
    apply list_elem_of_fmap in He as ([j ed] & -> & _).
    destruct (toEdge_elementMap (world st) j ed) as (edge & ? & _).
    by exists edge. }
  assert (kept = []) as ->.
  { destruct kept as [|edge kept]; [done|].
    destruct (proj1 (Hkept edge)) as (_ & _ & _ & Hfrom & _); [left|].
    discriminate Hfrom. }
  eexists. split.
  - unfold search.
    apply (query_success sign (search_fn focusRows {| focus := Some f |})
             st {| Result.nodes := []; Result.edges := [] |}).
    cbn. by rewrite Hrows.
  - reflexivity.
Qed.

Lemma search_with_unmatched_focus_example :
  Sample.noFocus {| focus_label := "person"; focus_key := "name";
                    focus_value := VStr "Nobody" |} Sample2.graph = []
  ∧ ∃ st',
      search Sample.sign Sample.noFocus
        {| focus := Some {| focus_label := "person"; focus_key := "name";
                            focus_value := VStr "Nobody" |} |}
        (Sample.connected Sample2.graph)
        = (st', Resolved {| Result.nodes := []; Result.edges := [] |})
      ∧ world st' = Sample2.graph.
Proof.
  split; [reflexivity|].
  exact (search_with_unmatched_focus_is_empty Sample.sign Sample.noFocus
           {| focus_label := "person"; focus_key := "name";
              focus_value := VStr "Nobody" |}
           (Sample.connected Sample2.graph) eq_refl).
Defined.

(** X19.  After [deleteNode(id)], [search] without focus returns no node
    with that id and no edge whose [from] or [to] is that id, whatever
    the graph held. *)
Theorem search_after_deleteNode_has_no_trace_of_it
    (sign : SignOptions → SignCredentials → gmap string value)
    (focusRows : Focus → Graph → list (gmap string value))
    (id : string) (st : State Graph) :
  ∃ st1 st2 out,
    deleteNode sign id st = (st1, Resolved VUndefined)
    ∧ search sign focusRows {| focus := None |} st1 = (st2, Resolved out)
    ∧ (∀ node, node ∈ Result.nodes out → Node.id node ≠ VStr id)
    ∧ (∀ edge, edge ∈ Result.edges out →
               Edge.from edge ≠ VStr id ∧ Edge.to edge ≠ VStr id).
Proof.
  unfold deleteNode.
  rewrite (method_world sign (deleteNode_fn id) VUndefined) by done.
  set (g := withRemote (connection (this st))).
  set (G1 := (deleteNode_fn id g (world st)).1).
  assert (hasV id G1 = false) as Hgone by apply deleteNode_fn_gone.
  destruct (search_unfocused sign focusRows
              (set_world G1 (emit (Invoke g) st)))
    as (st2 & kept & Hsearch & _ & Hkept).
  eexists _, st2, _. split; [reflexivity|]. split; [exact Hsearch|].
  cbn [Result.nodes Result.edges world set_world emit] in *. split.
  - intros node Hnode Hid.
    assert (nodeExists (toNode <$> V_valueMapTrue G1) (VStr id) = true)
      as Hex.
    { apply nodeExists_true. exists node. split; [done|].
      by apply strict_eq_primitive; [rewrite Hid|]. }
    rewrite nodeExists_unfocused in Hex. congruence.
  - intros edge Hedge. apply Hkept in Hedge
      as (j & e & He & Hbuilt & Hin & Hout).
    destruct (toEdge_elementMap G1 j e) as (edge' & Hedge' & Hf & Ht).
    rewrite Hbuilt in Hedge'. injection Hedge' as <-.
    rewrite Hf, Ht. split; intros [= Heq]; congruence.
Qed.

(* ================================================================== *)
(** * getHeaders: further properties                                   *)
(* ================================================================== *)

Lemma or_else_truthy (a b : value) : truthy a = true → or_else a b = a.
Proof. intros Ha. unfold or_else. by rewrite Ha. Qed.

(** X20.  Credentials passed to [getHeaders] win over the environment,
    and the names [accessKey] and [secretKey] win over [accessKeyId] and
    [secretAccessKey]: with host and port present and both keys passed
    under the first names, the request is signed with those two keys
    whatever else the argument and the environment hold, for the host
    ["host:port"], the path given and the service ["neptune-db"]. *)
Theorem getHeaders_prefers_the_argument
    (sign : SignOptions → SignCredentials → gmap string value)
    (env : gmap string string) (host port : value)
    (credentials : gmap string value) (canonicalUri : value) :
  truthy host = true → truthy port = true →
  truthy (get credentials "accessKey") = true →
  truthy (get credentials "secretKey") = true →
  ∃ token region,
    getHeaders sign env host port (VObj credentials) canonicalUri =
      Returns (sign {| so_host := to_string host +:+ ":" +:+ to_string port;
                       so_region := region;
                       so_path := canonicalUri;
                       so_service := "neptune-db" |}
                    {| accessKeyId := get credentials "accessKey";
                       secretAccessKey := get credentials "secretKey";
                       sessionToken := token |})
    ∧ (truthy (get credentials "sessionToken") = true →
       token = get credentials "sessionToken")
    ∧ (truthy (get credentials "region") = true →
       region = get credentials "region").
Proof.
  intros Hhost Hport Haccess Hsecret.
  rewrite getHeaders_object by done. cbn zeta.
  rewrite !(or_else_truthy (get credentials "accessKey")) by done.
  rewrite !(or_else_truthy (get credentials "secretKey")) by done.
  rewrite Haccess, Hsecret. cbn [negb orb].
  eexists _, _. split; [reflexivity|].
  split; intros Hgiven; by rewrite or_else_truthy.
Qed.

Lemma getHeaders_prefers_the_argument_example :
  ∃ token region,
    getHeaders Sample.sign
      {[ "AWS_ACCESS_KEY_ID" := "fromEnv"; "AWS_SECRET_ACCESS_KEY" := "envSecret" ]}
      (VStr "db.example") (VNum 8182)
      (VObj {[ "accessKey" := VStr "AKIA"; "secretKey" := VStr "secret";
               "accessKeyId" := VStr "other" ]})
      (VStr "/gremlin") =
      Returns (Sample.sign
                 {| so_host := "db.example:8182";
                    so_region := region;
                    so_path := VStr "/gremlin";
                    so_service := "neptune-db" |}
                 {| accessKeyId := VStr "AKIA";
                    secretAccessKey := VStr "secret";
                    sessionToken := token |}).
Proof.
  destruct (getHeaders_prefers_the_argument Sample.sign
              {[ "AWS_ACCESS_KEY_ID" := "fromEnv";
                 "AWS_SECRET_ACCESS_KEY" := "envSecret" ]}
              (VStr "db.example") (VNum 8182)
              {[ "accessKey" := VStr "AKIA"; "secretKey" := VStr "secret";
                 "accessKeyId" := VStr "other" ]}
              (VStr "/gremlin"))
    as (token & region & Hrun & _); try (vm_compute; reflexivity).
  exists token, region. exact Hrun.
Defined.
